(** * playlist_player: the per-entity playlist state machine

    A shallow embedding of [homeassistant/components/playlist_player.py]:
    the two handlers that [async_setup] registers ([async_play_media] and
    [async_state_changed]) and the methods of the class [PlaylistPlayer].

    Conventions of the embedding.
    - Python objects are shared: [hass.data[DATA_PLAYLIST_PLAYERS]] maps an
      entity id to a *reference* to a [PlaylistPlayer] instance.  The
      instances live in an object store ([objects]), the registry
      ([players]) holds their addresses, so that an instance deleted from
      the registry is still there for whoever holds it.
    - A handler is a function of the state of [hass] that returns a result
      or a raised exception together with the state it leaves behind (what
      was mutated before an exception stays mutated).
    - Python's numbers are its own: an [int] is an integer of any size, a
      [float] is a binary64 number, computed with the IEEE 754 operations
      of [SpecFloat] (round to nearest, ties to even).  Arithmetic that
      mixes the two converts the [int], raising [OverflowError] when it is
      too large; comparisons that mix the two are exact; anything that is
      not a number raises [TypeError].
    - [time.time()] is read at most once per handler run; its value, a
      float, is the argument [now].
    - [hass.async_add_job(hass.services.async_call(domain, service, data))]
      appends the call, with the contents of [data] at that moment, to
      [service_calls].
    - Logging is left out; the attribute reads made to build the arguments
      of a log record are kept, since they can raise. *)

From Stdlib Require Import Ascii String ZArith SpecFloat.
From stdpp Require Import base option strings list gmap.

Local Open Scope string_scope.
Local Open Scope list_scope.

(** ** Constants imported by the module *)

(** Modelled from the spec: the state constants of [homeassistant.const],
    which this module imports and does not define.  The spec names the
    kinds Idle, Playing, Paused and Off and treats every other state as
    unrecognized; a state is a string, and the proofs use of these four
    only that they are pairwise different. *)
Definition STATE_IDLE : string := "idle".
Definition STATE_PAUSED : string := "paused".
Definition STATE_PLAYING : string := "playing".
Definition STATE_OFF : string := "off".

(** Modelled from the spec: the keys imported from [homeassistant.const]
    and [homeassistant.components.media_player]: the entity id and the
    content id of a request, the duration and the position of a reported
    state.  They are four different keys; nothing else about them is
    used. *)
Definition ATTR_ENTITY_ID : string := "entity_id".
Definition ATTR_MEDIA_CONTENT_ID : string := "media_content_id".
Definition ATTR_MEDIA_DURATION : string := "media_duration".
Definition ATTR_MEDIA_POSITION : string := "media_position".

(** Modelled from the spec: the domain and the name of the media player's
    own "play media" service, imported from
    [homeassistant.components.media_player]; they only label the calls. *)
Definition MEDIA_PLAYER_DOMAIN : string := "media_player".
Definition SERVICE_PLAY_MEDIA : string := "play_media".

(** ** Exceptions and results *)

Inductive exn :=
| RuntimeError (msg : string)
| KeyError (key : option string)
| AttributeError
| TypeError
| OverflowError
| DanglingReference.  (* a reference outside the object store; no Python
                          run produces one, see [wf_handlers] *)

Inductive result (A : Type) :=
| Ok (a : A)
| Raise (e : exn).
Arguments Ok {A} a.
Arguments Raise {A} e.

(** Sequencing of computations that can raise. *)
Definition and_then {A B} (r : result A) (k : A -> result B) : result B :=
  match r with
  | Ok a => k a
  | Raise e => Raise e
  end.

(** ** Python's numbers *)

(** A float is a binary64 number: 53 bits of precision, exponents up to
    1024. *)
Definition prec : Z := 53.
Definition emax : Z := 1024.

Abbreviation float := spec_float.

Definition fadd : float -> float -> float := SFadd prec emax.
Definition fsub : float -> float -> float := SFsub prec emax.

(** The float nearest to [m * 2 ^ e]: how the float literals of the
    examples are written. *)
Definition f64 (m e : Z) : float := binary_normalize prec emax m e false.

Inductive num :=
| Int (z : Z)
| Float (f : float).

(** [float(z)]: correctly rounded; an [int] beyond the range of the
    floats raises. *)
Definition float_of_int (z : Z) : result float :=
  match f64 z 0 with
  | S754_infinity _ => Raise OverflowError
  | f => Ok f
  end.

Definition to_float (n : num) : result float :=
  match n with
  | Int z => float_of_int z
  | Float f => Ok f
  end.

(** [a - b] and [a + b]: exact on two [int]s, in floats otherwise. *)
Definition num_sub (a b : num) : result num :=
  match a, b with
  | Int x, Int y => Ok (Int (x - y))
  | _, _ => and_then (to_float a) (fun x =>
            and_then (to_float b) (fun y => Ok (Float (fsub x y))))
  end.

Definition num_add (a b : num) : result num :=
  match a, b with
  | Int x, Int y => Ok (Int (x + y))
  | _, _ => and_then (to_float a) (fun x =>
            and_then (to_float b) (fun y => Ok (Float (fadd x y))))
  end.

(** [abs(a)] *)
Definition num_abs (a : num) : num :=
  match a with
  | Int x => Int (Z.abs x)
  | Float f => Float (SFabs f)
  end.

(** A float against an [int], compared as the numbers they stand for
    (no rounding); [None] for a NaN. *)
Definition float_cmp_int (f : float) (z : Z) : option comparison :=
  match f with
  | S754_nan => None
  | S754_infinity s => Some (if s then Lt else Gt)
  | S754_zero _ => Some (0 ?= z)%Z
  | S754_finite s m e =>
      let v := if s then Zneg m else Zpos m in
      Some (if (0 <=? e)%Z then (v * 2 ^ e ?= z)%Z else (v ?= z * 2 ^ (- e))%Z)
  end.

Definition num_compare (a b : num) : option comparison :=
  match a, b with
  | Int x, Int y => Some (x ?= y)%Z
  | Float f, Float g => SFcompare f g
  | Float f, Int y => float_cmp_int f y
  | Int x, Float g => CompOpp <$> float_cmp_int g x
  end.

(** [a == b] and [a < b] *)
Definition num_eqb (a b : num) : bool :=
  match num_compare a b with
  | Some Eq => true
  | _ => false
  end.

Definition num_ltb (a b : num) : bool :=
  match num_compare a b with
  | Some Lt => true
  | _ => false
  end.

(** [a <= b] *)
Definition num_leb (a b : num) : bool :=
  match num_compare a b with
  | Some Lt | Some Eq => true
  | _ => false
  end.

(** ** Python values that occur in service data and state attributes *)

Inductive value :=
| VNone
| VBool (b : bool)
| VInt (z : Z)
| VFloat (f : float)
| VStr (s : string)
| VList (l : list string).

(** [bool(v)]: what [not v] tests. *)
Definition truthy (v : option value) : bool :=
  match v with
  | None | Some VNone => false
  | Some (VBool b) => b
  | Some (VInt z) => negb (z =? 0)%Z
  | Some (VFloat f) => negb (SFeqb f (S754_zero false))
  | Some (VStr s) => negb (String.eqb s EmptyString)
  | Some (VList l) => match l with [] => false | _ => true end
  end.

(** A value as an operand of [-]: a [bool] is an [int]; what is not a
    number raises. *)
Definition as_num (v : value) : result num :=
  match v with
  | VBool b => Ok (Int (if b then 1 else 0))
  | VInt z => Ok (Int z)
  | VFloat f => Ok (Float f)
  | _ => Raise TypeError
  end.

(** [a - b] on values *)
Definition py_sub (a b : value) : result num :=
  and_then (as_num a) (fun x => and_then (as_num b) (fun y => num_sub x y)).

(** [s.split(sep)] for a one-character separator: never empty, an empty
    field between two separators is kept. *)
Fixpoint split (sep : ascii) (s : string) : list string :=
  match s with
  | EmptyString => [EmptyString]
  | String c s' =>
      if Ascii.eqb c sep then EmptyString :: split sep s'
      else match split sep s' with
           | [] => [String c EmptyString]
           | w :: ws => String c w :: ws
           end
  end.

(** [sep.join(l)], the inverse used to build a content id from a list. *)
Fixpoint join (sep : ascii) (l : list string) : string :=
  match l with
  | [] => EmptyString
  | [w] => w
  | w :: ws => w ++ String sep (join sep ws)
  end.

(** The characters of a string, as Python iterates over it. *)
Fixpoint chars (s : string) : list string :=
  match s with
  | EmptyString => []
  | String c s' => String c EmptyString :: chars s'
  end.

(** ** The objects *)

(** A reference is an index in the object store. *)
Abbreviation loc := nat.

(** An instance of [PlaylistPlayer].  [data], [media_ids] and [state] are
    not set by [__init__]: [None] is the missing attribute. *)
Record player := mkPlayer {
  entity_id : option string;
  start_time : num;
  time_left : num;
  time_past : num;
  data : option (gmap string value);
  media_ids : option (list string);
  state : option string
}.

Definition set_entity_id (v : option string) (p : player) : player :=
  mkPlayer v (start_time p) (time_left p) (time_past p) (data p) (media_ids p) (state p).
Definition set_start_time (v : num) (p : player) : player :=
  mkPlayer (entity_id p) v (time_left p) (time_past p) (data p) (media_ids p) (state p).
Definition set_time_left (v : num) (p : player) : player :=
  mkPlayer (entity_id p) (start_time p) v (time_past p) (data p) (media_ids p) (state p).
Definition set_time_past (v : num) (p : player) : player :=
  mkPlayer (entity_id p) (start_time p) (time_left p) v (data p) (media_ids p) (state p).
Definition set_data (v : gmap string value) (p : player) : player :=
  mkPlayer (entity_id p) (start_time p) (time_left p) (time_past p) (Some v) (media_ids p) (state p).
Definition set_media_ids (v : list string) (p : player) : player :=
  mkPlayer (entity_id p) (start_time p) (time_left p) (time_past p) (data p) (Some v) (state p).
Definition set_state (v : string) (p : player) : player :=
  mkPlayer (entity_id p) (start_time p) (time_left p) (time_past p) (data p) (media_ids p) (Some v).

(** A call handed to [hass.services.async_call]. *)
Record service_call := mkCall {
  call_domain : string;
  call_service : string;
  call_data : gmap string value
}.

(** The part of [hass] the component touches. *)
Record hass := mkHass {
  players : gmap string loc;          (* hass.data[DATA_PLAYLIST_PLAYERS] *)
  objects : list player;              (* the PlaylistPlayer instances *)
  service_calls : list service_call   (* jobs added, oldest first *)
}.

(** [new_state] of a state-changed event: [state] and [attributes]. *)
Record State := mkState {
  st_state : string;
  attributes : gmap string value
}.

(** A state-changed event: [event.data.get(ATTR_ENTITY_ID)] and
    [event.data.get('new_state')]. *)
Record event := mkEvent {
  ev_entity_id : option string;
  ev_new_state : option State
}.

(** ** The monad of handlers: state, and exceptions that keep the state *)

Definition M (A : Type) : Type := hass -> result A * hass.

Definition ret {A} (a : A) : M A := fun h => (Ok a, h).
Definition raise {A} (e : exn) : M A := fun h => (Raise e, h).
Definition bind {A B} (m : M A) (k : A -> M B) : M B :=
  fun h => match m h with
           | (Ok a, h') => k a h'
           | (Raise e, h') => (Raise e, h')
           end.

(** A computation on values, run inside a handler. *)
Definition lift {A} (r : result A) : M A := fun h => (r, h).

Declare Scope handler_scope.
Delimit Scope handler_scope with handler.
Notation "x <- m ;; k" := (bind m (fun x => k))
  (at level 100, m at next level, right associativity) : handler_scope.
Notation "m ;; k" := (bind m (fun _ => k))
  (at level 100, right associativity) : handler_scope.
Local Open Scope handler_scope.

(** [for x in l: body(x)] *)
Fixpoint for_each {A} (l : list A) (body : A -> M unit) : M unit :=
  match l with
  | [] => ret tt
  | x :: l' => body x ;; for_each l' body
  end.

(** Reading and writing an instance through its reference. *)
Definition load (l : loc) : M player :=
  fun h => match objects h !! l with
           | Some p => (Ok p, h)
           | None => (Raise DanglingReference, h)
           end.

Definition update (l : loc) (f : player -> player) : M unit :=
  fun h => match objects h !! l with
           | Some p => (Ok tt, mkHass (players h) (<[l := f p]> (objects h)) (service_calls h))
           | None => (Raise DanglingReference, h)
           end.

(** [self.x] for an attribute that [__init__] does not set. *)
Definition getattr {A} (field : player -> option A) (l : loc) : M A :=
  p <- load l ;;
  match field p with
  | Some a => ret a
  | None => raise AttributeError
  end.

(** [PlaylistPlayer(hass, entity_id)]: a new instance, [__init__] run. *)
Definition __init__ (e : string) : player :=
  mkPlayer (Some e) (Int 0) (Int 0) (Int 0) None None None.

Definition new_player (e : string) : M loc :=
  fun h => (Ok (length (objects h)),
            mkHass (players h) (objects h ++ [__init__ e]) (service_calls h)).

(** The registry. *)
Definition registry_get (e : string) : M (option loc) :=
  fun h => (Ok (players h !! e), h).

Definition registry_set (e : string) (l : loc) : M unit :=
  fun h => (Ok tt, mkHass (<[e := l]> (players h)) (objects h) (service_calls h)).

(** [del hass.data[DATA_PLAYLIST_PLAYERS][k]] *)
Definition registry_del (k : option string) : M unit :=
  fun h => match k with
           | Some e =>
               match players h !! e with
               | Some _ => (Ok tt, mkHass (delete e (players h)) (objects h) (service_calls h))
               | None => (Raise (KeyError k), h)
               end
           | None => (Raise (KeyError k), h)
           end.

Definition async_add_job (c : service_call) : M unit :=
  fun h => (Ok tt, mkHass (players h) (objects h) (service_calls h ++ [c])).

(** [if DATA_PLAYLIST_PLAYERS not in hass.data: hass.data[...] = {}] *)
Definition async_setup (registry : option (gmap string loc)) : gmap string loc :=
  match registry with
  | None => ∅
  | Some r => r
  end.

(** [duration - position] of a reported state, each the [int] 0 when the
    attribute is missing. *)
Definition reported_time_left (s : State) : result num :=
  py_sub (default (VInt 0) (attributes s !! ATTR_MEDIA_DURATION))
         (default (VInt 0) (attributes s !! ATTR_MEDIA_POSITION)).

(** [time_past + (now - start_time)], the value that
    [self.time_past += time.time() - self.start_time] stores. *)
Definition elapsed_since (time_past : num) (now : float) (start_time : num) : result num :=
  and_then (num_sub (Float now) start_time) (fun d => num_add time_past d).

(** [abs(time_past - time_left) < 2] *)
Definition within_tolerance (time_past time_left : num) : result bool :=
  and_then (num_sub time_past time_left) (fun x => Ok (num_ltb (num_abs x) (Int 2))).

(** ** class PlaylistPlayer *)

Module PlaylistPlayer.

(** [async_stop]: the registry entry goes, then [entity_id] is cleared. *)
Definition async_stop (self : loc) : M unit :=
  p <- load self ;;
  registry_del (entity_id p) ;;
  update self (set_entity_id None).

(** [async_media_next_track]: [pop(0)] runs before [self.data] is read
    (the right-hand side of the assignment is evaluated first). *)
Definition async_media_next_track (self : loc) : M unit :=
  ids <- getattr media_ids self ;;
  match ids with
  | m :: rest =>
      update self (set_media_ids rest) ;;
      d <- getattr data self ;;
      update self (set_data (<[ATTR_MEDIA_CONTENT_ID := VStr m]> d)) ;;
      async_add_job (mkCall MEDIA_PLAYER_DOMAIN SERVICE_PLAY_MEDIA
                            (<[ATTR_MEDIA_CONTENT_ID := VStr m]> d))
  | [] => async_stop self
  end.

(** [self.entity_id] as a value stored in [data]. *)
Definition id_value (e : option string) : value :=
  match e with
  | Some s => VStr s
  | None => VNone
  end.

(** [call_data.get(ATTR_MEDIA_CONTENT_ID).split(',')] *)
Definition content_ids (v : option value) : M (list string) :=
  match v with
  | Some (VStr s) => ret (split "," s)
  | _ => raise AttributeError
  end.

Definition async_play (self : loc) (call_data : gmap string value) : M unit :=
  p <- load self ;;
  update self (set_data (<[ATTR_ENTITY_ID := id_value (entity_id p)]> call_data)) ;;
  ids <- content_ids (call_data !! ATTR_MEDIA_CONTENT_ID) ;;
  update self (set_media_ids ids) ;;
  update self (set_state STATE_IDLE) ;;
  async_media_next_track self.

(** [abs(self.time_past - self.time_left) < 2] *)
Definition video_ended (p : player) : result bool :=
  within_tolerance (time_past p) (time_left p).

(** [self.time_past += time.time() - self.start_time]: nothing is stored
    when the arithmetic raises. *)
Definition accumulate (self : loc) (now : float) : M unit :=
  p <- load self ;;
  t <- lift (elapsed_since (time_past p) now (start_time p)) ;;
  update self (set_time_past t).

(** The three assignments of the "video started" branch. *)
Definition restart (now : float) (new_time_left : num) (p : player) : player :=
  set_time_past (Int 0) (set_time_left new_time_left (set_start_time (Float now) p)).

Definition async_state_changed (self : loc) (new_state : State) (now : float) : M unit :=
  old <- getattr state self ;;
  if String.eqb (st_state new_state) STATE_PLAYING then
    new_time_left <- lift (reported_time_left new_state) ;;
    p <- load self ;;
    (if String.eqb old STATE_IDLE || negb (num_eqb new_time_left (time_left p)) then
       update self (restart now new_time_left)
     else if String.eqb old STATE_PAUSED then
       update self (set_start_time (Float now))
     else ret tt) ;;
    update self (set_state (st_state new_state))
  else if String.eqb (st_state new_state) STATE_PAUSED then
    (if String.eqb old STATE_PLAYING then accumulate self now
     else ret tt) ;;
    update self (set_state (st_state new_state))
  else if String.eqb (st_state new_state) STATE_IDLE then
    (if String.eqb old STATE_PLAYING then
       accumulate self now ;;
       p <- load self ;;
       ended <- lift (video_ended p) ;;
       if ended then async_media_next_track self
       else async_stop self
     else if String.eqb old STATE_PAUSED then async_stop self
     else ret tt) ;;
    update self (set_state (st_state new_state))
  else if String.eqb (st_state new_state) STATE_OFF then
    async_stop self ;;
    update self (set_state (st_state new_state))
  else
    async_stop self.

End PlaylistPlayer.

(** ** The handlers registered by [async_setup] *)

(** What [for entity_id in v] iterates over. *)
Definition iterate (v : option value) : M (list string) :=
  match v with
  | Some (VList l) => ret l
  | Some (VStr s) => ret (chars s)
  | _ => raise TypeError
  end.

Definition async_play_media (call_data : gmap string value) : M unit :=
  if negb (truthy (call_data !! ATTR_ENTITY_ID)) then
    raise (RuntimeError "Empty entity_id not supported.")
  else
    ids <- iterate (call_data !! ATTR_ENTITY_ID) ;;
    for_each ids (fun entity_id =>
      r <- registry_get entity_id ;;
      player <- match r with
                | None =>
                    l <- new_player entity_id ;;
                    registry_set entity_id l ;;
                    ret l
                | Some l => ret l
                end ;;
      PlaylistPlayer.async_play player call_data).

Definition async_state_changed (ev : event) (now : float) : M unit :=
  r <- match ev_entity_id ev with
       | Some e => registry_get e
       | None => ret None
       end ;;
  match r with
  | Some player =>
      match ev_new_state ev with
      | Some new_state => PlaylistPlayer.async_state_changed player new_state now
      | None => _ <- getattr state player ;; raise AttributeError
      end
  | None => ret tt
  end.

(** The state of [hass] when [async_setup] has run on a fresh instance. *)
Definition hass0 : hass := mkHass (async_setup None) [] [].

(** ** Small runs *)

Definition play_request (ids : list string) (content_id : string) : gmap string value :=
  <[ATTR_ENTITY_ID := VList ids]> (<[ATTR_MEDIA_CONTENT_ID := VStr content_id]> ∅).

Definition state_event (e s : string) (duration position : value) : event :=
  mkEvent (Some e)
    (Some (mkState s (<[ATTR_MEDIA_DURATION := duration]>
                        (<[ATTR_MEDIA_POSITION := position]> ∅)))).

Definition run {A} (m : M A) (h : hass) : hass := snd (m h).
Definition outcome {A} (m : M A) (h : hass) : result A := fst (m h).

(** A clock reading of [n] seconds, and one of [n] seconds and a half. *)
Definition seconds (n : Z) : float := f64 n 0.
Definition seconds_and_half (n : Z) : float := f64 (2 * n + 1) (-1).

(** Two entities under playlist control. *)
Definition two_players : hass :=
  run (async_play_media (play_request ["tv"; "radio"] "a,b")) hass0.

(** One entity, its playlist stopped by the player going off. *)
Definition stopped_once : hass :=
  run (async_play_media (play_request ["tv"] "a") ;;
       async_state_changed (state_event "tv" STATE_OFF (VInt 0) (VInt 0)) (seconds 5)) hass0.

(** One entity playing the first of two items since time 1000, the item
    lasting 100 seconds. *)
Definition playing_tv : hass :=
  run (async_play_media (play_request ["tv"] "a,b") ;;
       async_state_changed (state_event "tv" STATE_PLAYING (VInt 100) (VInt 0)) (seconds 1000))
      hass0.

(** The same, paused 30 seconds later. *)
Definition paused_tv : hass :=
  run (async_state_changed (state_event "tv" STATE_PAUSED (VInt 100) (VInt 30)) (seconds 1030))
      playing_tv.

(** The same, with a new play request while paused, then reported paused
    and playing again (an item of 100 seconds once more) at time 2000. *)
Definition replayed_tv : hass :=
  run (async_play_media (play_request ["tv"] "c,d") ;;
       async_state_changed (state_event "tv" STATE_PAUSED (VInt 100) (VInt 0)) (seconds 1990) ;;
       async_state_changed (state_event "tv" STATE_PLAYING (VInt 100) (VInt 0)) (seconds 2000))
      paused_tv.

(** The states the state machine tells apart. *)
Definition supported (s : string) : bool :=
  String.eqb s STATE_PLAYING || String.eqb s STATE_PAUSED
  || String.eqb s STATE_IDLE || String.eqb s STATE_OFF.

(** ** The invariant of the registry

    Every entry of the registry refers to an instance of the store, and
    that instance carries the entity id it is registered under. *)

Definition wf (h : hass) : Prop :=
  forall (e : string) (l : loc),
    players h !! e = Some l ->
    exists p, objects h !! l = Some p /\ entity_id p = Some e.

(** The invariant, with an instance [l] at hand. *)
Definition good (l : loc) (h : hass) : Prop :=
  wf h /\ l < length (objects h).

(** [m] keeps [P] whatever its outcome and never meets a reference
    outside the store. *)
Definition keeps {A} (P : hass -> Prop) (m : M A) : Prop :=
  forall h, P h -> P (snd (m h)) /\ fst (m h) <> Raise DanglingReference.

(** ** Playback scenarios

    A round is what the media player reports for one item: a state-changed
    event to playing, read at [rd_started], and later one to idle, read at
    [rd_ended]. *)

Record round := mkRound {
  rd_playing : State;
  rd_started : float;
  rd_idle : State;
  rd_ended : float
}.

(** The item ran for its expected time, within the tolerance: the
    handler's own test, on the numbers the handler computes -- the time
    left it reads off the playing state, the time past it accumulates from
    0 between the two events. *)
Definition natural_end (r : round) : Prop :=
  st_state (rd_playing r) = STATE_PLAYING /\
  st_state (rd_idle r) = STATE_IDLE /\
  exists left past : num,
    reported_time_left (rd_playing r) = Ok left /\
    elapsed_since (Int 0) (rd_ended r) (Float (rd_started r)) = Ok past /\
    within_tolerance past left = Ok true.

(** The events of the rounds, delivered in order for entity [e]. *)
Fixpoint play_rounds (e : string) (rs : list round) : M unit :=
  match rs with
  | [] => ret tt
  | r :: rs' =>
      async_state_changed (mkEvent (Some e) (Some (rd_playing r))) (rd_started r) ;;
      async_state_changed (mkEvent (Some e) (Some (rd_idle r))) (rd_ended r) ;;
      play_rounds e rs'
  end.

(** A round for an item of the given duration, reported from position 0. *)
Definition round_of (duration : value) (started ended : float) : round :=
  mkRound (mkState STATE_PLAYING {[ATTR_MEDIA_DURATION := duration]}) started
          (mkState STATE_IDLE ∅) ended.

(** The service call that [async_media_next_track] adds for media id [m]
    when [self.data] is [d]. *)
Definition item_call (d : gmap string value) (m : string) : service_call :=
  mkCall MEDIA_PLAYER_DOMAIN SERVICE_PLAY_MEDIA (<[ATTR_MEDIA_CONTENT_ID := VStr m]> d).

(** The "play single item" command of a request [cd] for entity [e] and
    media id [m]: the request's data, with the entity id and the content
    id replaced. *)
Definition play_single_item (cd : gmap string value) (e m : string) : service_call :=
  item_call (<[ATTR_ENTITY_ID := VStr e]> cd) m.

(** [c in s] *)
Fixpoint contains (c : ascii) (s : string) : bool :=
  match s with
  | EmptyString => false
  | String c' s' => Ascii.eqb c' c || contains c s'
  end.

(** ** The transition table

    What a state-changed event does to the playlist of a live instance:
    nothing but bookkeeping, play the next pending id, or end the
    playlist.  [ended] is the outcome of the tolerance test on the
    accumulated time, [pending] the ids not played yet. *)

Inductive action :=
| Keep
| Advance
| Stop.

Definition classify (old new : string) (ended : bool) (pending : list string) : action :=
  if String.eqb new STATE_PLAYING then Keep
  else if String.eqb new STATE_PAUSED then Keep
  else if String.eqb new STATE_IDLE then
    if String.eqb old STATE_PLAYING then
      if ended then match pending with [] => Stop | _ :: _ => Advance end
      else Stop
    else if String.eqb old STATE_PAUSED then Stop
    else Keep
  else Stop.

(** The states [self.state] takes on a registered instance. *)
Definition live_state (s : string) : bool :=
  String.eqb s STATE_IDLE || String.eqb s STATE_PLAYING || String.eqb s STATE_PAUSED.

(** Every registered instance has been through [async_play]: it carries
    the entity id it is registered under, [data], [media_ids] and a
    [state] that is idle, playing or paused. *)
Definition ready (h : hass) : Prop :=
  forall (e : string) (l : loc),
    players h !! e = Some l ->
    exists p, objects h !! l = Some p /\ entity_id p = Some e /\
              is_Some (data p) /\ is_Some (media_ids p) /\
              exists s, state p = Some s /\ live_state s = true.

(** State-changed events for entity [e], delivered in order; each comes
    with its new state (if any) and the time it is handled at. *)
Definition deliver (e : string) (evs : list (option State * float)) : M unit :=
  for_each evs (fun ev => async_state_changed (mkEvent (Some e) (fst ev)) (snd ev)).

(** The body of the loop of [async_play_media], for one entity id. *)
Definition play_entity (call_data : gmap string value) (entity_id : string) : M unit :=
  r <- registry_get entity_id ;;
  player <- match r with
            | None =>
                l <- new_player entity_id ;;
                registry_set entity_id l ;;
                ret l
            | Some l => ret l
            end ;;
  PlaylistPlayer.async_play player call_data.

(** The arithmetic raises [TypeError] or [OverflowError], nothing else. *)
Definition arithmetic {A} (r : result A) : Prop :=
  forall e, r = Raise e -> e = TypeError \/ e = OverflowError.

(** A timing field that cannot make the arithmetic raise: the [int] 0
    that [__init__] stores, or a float. *)
Definition clock_value (n : num) : Prop :=
  match n with
  | Int z => z = 0%Z
  | Float _ => True
  end.

(** The attribute [k] of a reported state is missing or a float. *)
Definition float_attribute (s : State) (k : string) : Prop :=
  match attributes s !! k with
  | None | Some (VFloat _) => True
  | Some _ => False
  end.

(** The timing fields of every registered instance are such values. *)
Definition timed (h : hass) : Prop :=
  forall (e : string) (l : loc) (p : player),
    players h !! e = Some l -> objects h !! l = Some p ->
    clock_value (start_time p) /\ clock_value (time_left p) /\ clock_value (time_past p).

(** ** Equations of the primitive operations *)

Lemma bind_Ok {A B} (m : M A) (k : A -> M B) (h h' : hass) (a : A) :
  m h = (Ok a, h') -> bind m k h = k a h'.
Proof. intros E. unfold bind. now rewrite E. Qed.

Lemma bind_Raise {A B} (m : M A) (k : A -> M B) (h h' : hass) (e : exn) :
  m h = (Raise e, h') -> bind m k h = (Raise e, h').
Proof. intros E. unfold bind. now rewrite E. Qed.

Section Primitives.
Variables (ps : gmap string loc) (objs : list player) (calls : list service_call).
Variables (l : loc) (p : player).
Hypothesis Hl : objs !! l = Some p.

Lemma load_eq : load l (mkHass ps objs calls) = (Ok p, mkHass ps objs calls).
Proof. unfold load. simpl. now rewrite Hl. Qed.

Lemma update_eq (f : player -> player) :
  update l f (mkHass ps objs calls) = (Ok tt, mkHass ps (<[l := f p]> objs) calls).
Proof. unfold update. simpl. now rewrite Hl. Qed.

Lemma getattr_eq {A} (field : player -> option A) (a : A) :
  field p = Some a ->
  getattr field l (mkHass ps objs calls) = (Ok a, mkHass ps objs calls).
Proof. intros F. unfold getattr. rewrite (bind_Ok _ _ _ _ _ load_eq). now rewrite F. Qed.

Lemma getattr_missing {A} (field : player -> option A) :
  field p = None ->
  getattr field l (mkHass ps objs calls) = (Raise AttributeError, mkHass ps objs calls).
Proof. intros F. unfold getattr. rewrite (bind_Ok _ _ _ _ _ load_eq). now rewrite F. Qed.

(** Reading back what was just written. *)
Lemma lookup_written (q : player) : <[l := q]> objs !! l = Some q.
Proof. apply list_lookup_insert_eq. eapply lookup_lt_Some, Hl. Qed.
End Primitives.

(** ** The methods on a live instance *)

Section Methods.
Variables (ps : gmap string loc) (objs : list player) (calls : list service_call).
Variables (self : loc) (p : player).
Hypothesis Hself : objs !! self = Some p.

Lemma async_stop_registered (e : string) (x : loc) :
  entity_id p = Some e -> ps !! e = Some x ->
  PlaylistPlayer.async_stop self (mkHass ps objs calls)
  = (Ok tt, mkHass (delete e ps) (<[self := set_entity_id None p]> objs) calls).
Proof.
  intros He Hx. unfold PlaylistPlayer.async_stop.
  rewrite (bind_Ok _ _ _ _ _ (load_eq ps _ calls _ _ Hself)).
  unfold bind at 1. unfold registry_del. rewrite He. simpl. rewrite Hx.
  now rewrite (update_eq _ _ calls _ _ Hself).
Qed.

Lemma async_stop_removed :
  match entity_id p with
  | Some e => ps !! e = None
  | None => True
  end ->
  PlaylistPlayer.async_stop self (mkHass ps objs calls)
  = (Raise (KeyError (entity_id p)), mkHass ps objs calls).
Proof.
  intros He. unfold PlaylistPlayer.async_stop.
  rewrite (bind_Ok _ _ _ _ _ (load_eq ps _ calls _ _ Hself)).
  unfold bind, registry_del. destruct (entity_id p) as [e|]; simpl; [|reflexivity].
  now rewrite He.
Qed.

Lemma next_track_cons (m : string) (rest : list string) (d : gmap string value) :
  media_ids p = Some (m :: rest) -> data p = Some d ->
  PlaylistPlayer.async_media_next_track self (mkHass ps objs calls)
  = (Ok tt,
     mkHass ps
       (<[self := set_data (<[ATTR_MEDIA_CONTENT_ID := VStr m]> d) (set_media_ids rest p)]> objs)
       (calls ++ [mkCall MEDIA_PLAYER_DOMAIN SERVICE_PLAY_MEDIA
                         (<[ATTR_MEDIA_CONTENT_ID := VStr m]> d)])).
Proof.
  intros Hm Hd. unfold PlaylistPlayer.async_media_next_track.
  rewrite (bind_Ok _ _ _ _ _ (getattr_eq ps _ calls _ _ Hself _ _ Hm)).
  rewrite (bind_Ok _ _ _ _ _ (update_eq ps _ calls _ _ Hself _)).
  pose proof (lookup_written _ _ _ Hself (set_media_ids rest p)) as H1.
  rewrite (bind_Ok _ _ _ _ _ (getattr_eq ps _ calls _ _ H1 data d Hd)).
  rewrite (bind_Ok _ _ _ _ _ (update_eq ps _ calls _ _ H1 _)).
  unfold async_add_job. simpl. now rewrite list_insert_insert_eq.
Qed.

Lemma next_track_nil :
  media_ids p = Some [] ->
  PlaylistPlayer.async_media_next_track self (mkHass ps objs calls)
  = PlaylistPlayer.async_stop self (mkHass ps objs calls).
Proof.
  intros Hm. unfold PlaylistPlayer.async_media_next_track.
  now rewrite (bind_Ok _ _ _ _ _ (getattr_eq ps _ calls _ _ Hself _ _ Hm)).
Qed.

End Methods.

(** ** [split] *)

Lemma split_cons (sep : ascii) (s : string) :
  exists w ws, split sep s = w :: ws.
Proof.
  destruct s as [|c s]; simpl; [eauto|].
  destruct (Ascii.eqb c sep); [eauto|].
  destruct (split sep s); eauto.
Qed.

(** [async_play] on a live instance, with a string as content id. *)
Lemma async_play_str (ps : gmap string loc) (objs : list player) (calls : list service_call)
    (self : loc) (p : player) (cd : gmap string value) (s m : string) (rest : list string) :
  objs !! self = Some p ->
  cd !! ATTR_MEDIA_CONTENT_ID = Some (VStr s) ->
  split "," s = m :: rest ->
  let d := <[ATTR_MEDIA_CONTENT_ID := VStr m]>
             (<[ATTR_ENTITY_ID := PlaylistPlayer.id_value (entity_id p)]> cd) in
  PlaylistPlayer.async_play self cd (mkHass ps objs calls)
  = (Ok tt,
     mkHass ps
       (<[self := mkPlayer (entity_id p) (start_time p) (time_left p) (time_past p)
                           (Some d) (Some rest) (Some STATE_IDLE)]> objs)
       (calls ++ [mkCall MEDIA_PLAYER_DOMAIN SERVICE_PLAY_MEDIA d])).
Proof.
  intros Hself Hc Hs d. unfold PlaylistPlayer.async_play.
  rewrite (bind_Ok _ _ _ _ _ (load_eq ps _ calls _ _ Hself)).
  rewrite (bind_Ok _ _ _ _ _ (update_eq ps _ calls _ _ Hself _)).
  rewrite Hc. unfold PlaylistPlayer.content_ids. unfold bind at 1, ret at 1.
  rewrite Hs.
  pose proof (lookup_written _ _ _ Hself) as H1.
  rewrite (bind_Ok _ _ _ _ _ (update_eq ps _ calls _ _ (H1 _) _)).
  rewrite list_insert_insert_eq.
  rewrite (bind_Ok _ _ _ _ _ (update_eq ps _ calls _ _ (H1 _) _)).
  rewrite list_insert_insert_eq.
  erewrite (next_track_cons ps _ calls self _ (H1 _) m rest); [|reflexivity..].
  now rewrite list_insert_insert_eq.
Qed.

(** ** Running a handler on an explicit state *)

Lemma bind_load {B} (ps : gmap string loc) (objs : list player) (calls : list service_call)
    (l : loc) (p : player) (k : player -> M B) :
  objs !! l = Some p ->
  bind (load l) k (mkHass ps objs calls) = k p (mkHass ps objs calls).
Proof. intros H. apply bind_Ok. now apply load_eq. Qed.

Lemma bind_update {B} (ps : gmap string loc) (objs : list player) (calls : list service_call)
    (l : loc) (p : player) (f : player -> player) (k : unit -> M B) :
  objs !! l = Some p ->
  bind (update l f) k (mkHass ps objs calls) = k tt (mkHass ps (<[l := f p]> objs) calls).
Proof. intros H. apply bind_Ok. now apply update_eq. Qed.

Lemma bind_getattr {A B} (ps : gmap string loc) (objs : list player) (calls : list service_call)
    (l : loc) (p : player) (field : player -> option A) (a : A) (k : A -> M B) :
  objs !! l = Some p -> field p = Some a ->
  bind (getattr field l) k (mkHass ps objs calls) = k a (mkHass ps objs calls).
Proof. intros H F. apply bind_Ok. now apply getattr_eq with (p := p). Qed.

Lemma bind_ret {A B} (a : A) (k : A -> M B) (h : hass) : bind (ret a) k h = k a h.
Proof. reflexivity. Qed.

Lemma bind_lift {A B} (a : A) (k : A -> M B) (h : hass) : bind (lift (Ok a)) k h = k a h.
Proof. reflexivity. Qed.

Lemma bind_lift_Raise {A B} (e : exn) (k : A -> M B) (h : hass) :
  bind (lift (Raise e)) k h = (Raise e, h).
Proof. reflexivity. Qed.

Lemma bind_assoc {A B C} (m : M A) (k : A -> M B) (k' : B -> M C) (h : hass) :
  bind (bind m k) k' h = bind m (fun a => bind (k a) k') h.
Proof. unfold bind. destruct (m h) as [[a|e] h']; reflexivity. Qed.

Ltac live :=
  first [ eassumption | eapply lookup_written; eassumption ].

Ltac mstep :=
  first
    [ rewrite bind_ret
    | rewrite bind_lift
    | erewrite bind_load by live
    | erewrite bind_update by live
    | erewrite bind_getattr by (first [ live | simpl; eassumption | reflexivity ])
    | erewrite update_eq by live
    | rewrite list_insert_insert_eq ].

Ltac mrun := repeat mstep.

Section StateChanged.
Variables (ps : gmap string loc) (objs : list player) (calls : list service_call).
Variables (self : loc) (p : player) (old : string).
Variables (new_state : State) (now : float).
Hypothesis Hself : objs !! self = Some p.
Hypothesis Hold : state p = Some old.

Let h := mkHass ps objs calls.

(** [self.time_past += ...] with the sum computed *)
Lemma accumulate_eq (t : num) :
  elapsed_since (time_past p) now (start_time p) = Ok t ->
  PlaylistPlayer.accumulate self now h
  = (Ok tt, mkHass ps (<[self := set_time_past t p]> objs) calls).
Proof.
  intros Ht. unfold PlaylistPlayer.accumulate, h. mrun. rewrite Ht. mrun. reflexivity.
Qed.

(** ... and with the arithmetic raising *)
Lemma accumulate_raises (e : exn) :
  elapsed_since (time_past p) now (start_time p) = Raise e ->
  PlaylistPlayer.accumulate self now h = (Raise e, h).
Proof.
  intros Ht. unfold PlaylistPlayer.accumulate, h. mrun. rewrite Ht. reflexivity.
Qed.

(** any -> playing *)
Lemma to_playing (new_time_left : num) :
  st_state new_state = STATE_PLAYING ->
  reported_time_left new_state = Ok new_time_left ->
  PlaylistPlayer.async_state_changed self new_state now h
  = (Ok tt,
     mkHass ps
       (<[self := set_state STATE_PLAYING
            (if String.eqb old STATE_IDLE || negb (num_eqb new_time_left (time_left p))
             then PlaylistPlayer.restart now new_time_left p
             else if String.eqb old STATE_PAUSED then set_start_time (Float now) p
             else p)]> objs)
       calls).
Proof.
  intros Hn Ht. unfold PlaylistPlayer.async_state_changed, h. rewrite Hn. simpl String.eqb.
  cbv iota. mrun. rewrite Ht. mrun.
  destruct (String.eqb old STATE_IDLE || negb (num_eqb new_time_left (time_left p))).
  - mrun. reflexivity.
  - destruct (String.eqb old STATE_PAUSED); mrun; reflexivity.
Qed.

(** any -> playing, with attributes that cannot be subtracted *)
Lemma to_playing_raises (e : exn) :
  st_state new_state = STATE_PLAYING ->
  reported_time_left new_state = Raise e ->
  PlaylistPlayer.async_state_changed self new_state now h = (Raise e, h).
Proof.
  intros Hn Ht. unfold PlaylistPlayer.async_state_changed, h. rewrite Hn. simpl String.eqb.
  cbv iota. mrun. rewrite Ht. reflexivity.
Qed.

(** playing -> paused *)
Lemma playing_to_paused (t : num) :
  st_state new_state = STATE_PAUSED -> old = STATE_PLAYING ->
  elapsed_since (time_past p) now (start_time p) = Ok t ->
  PlaylistPlayer.async_state_changed self new_state now h
  = (Ok tt, mkHass ps (<[self := set_state STATE_PAUSED (set_time_past t p)]> objs) calls).
Proof.
  intros Hn Ho Ht. unfold PlaylistPlayer.async_state_changed. rewrite Hn.
  simpl String.eqb. cbv iota. unfold h at 1. mrun. rewrite Ho. simpl String.eqb. cbv iota.
  fold h. rewrite (bind_Ok _ _ _ _ _ (accumulate_eq t Ht)). mrun. reflexivity.
Qed.

Lemma playing_to_paused_raises (e : exn) :
  st_state new_state = STATE_PAUSED -> old = STATE_PLAYING ->
  elapsed_since (time_past p) now (start_time p) = Raise e ->
  PlaylistPlayer.async_state_changed self new_state now h = (Raise e, h).
Proof.
  intros Hn Ho Ht. unfold PlaylistPlayer.async_state_changed. rewrite Hn.
  simpl String.eqb. cbv iota. unfold h at 1. mrun. rewrite Ho. simpl String.eqb. cbv iota.
  fold h. now rewrite (bind_Raise _ _ _ _ _ (accumulate_raises e Ht)).
Qed.

(** idle or paused -> paused *)
Lemma other_to_paused :
  st_state new_state = STATE_PAUSED -> old <> STATE_PLAYING ->
  PlaylistPlayer.async_state_changed self new_state now h
  = (Ok tt, mkHass ps (<[self := set_state STATE_PAUSED p]> objs) calls).
Proof.
  intros Hn Ho. unfold PlaylistPlayer.async_state_changed, h. rewrite Hn.
  simpl String.eqb. cbv iota. mrun. apply String.eqb_neq in Ho. rewrite Ho. mrun.
  reflexivity.
Qed.

(** playing -> idle: the time is accumulated, then the tolerance decides *)
Lemma playing_to_idle (t : num) (ended : bool) :
  st_state new_state = STATE_IDLE -> old = STATE_PLAYING ->
  elapsed_since (time_past p) now (start_time p) = Ok t ->
  within_tolerance t (time_left p) = Ok ended ->
  PlaylistPlayer.async_state_changed self new_state now h
  = ((if ended then PlaylistPlayer.async_media_next_track self
      else PlaylistPlayer.async_stop self) ;;
     update self (set_state STATE_IDLE))
      (mkHass ps (<[self := set_time_past t p]> objs) calls).
Proof.
  intros Hn Ho Ht Hv. unfold PlaylistPlayer.async_state_changed. rewrite Hn.
  simpl String.eqb. cbv iota. unfold h at 1. mrun. rewrite Ho. simpl String.eqb. cbv iota.
  fold h. rewrite bind_assoc. rewrite (bind_Ok _ _ _ _ _ (accumulate_eq t Ht)).
  rewrite bind_assoc. mrun. unfold PlaylistPlayer.video_ended. cbn [time_past time_left set_time_past].
  rewrite Hv. rewrite bind_assoc. mrun. reflexivity.
Qed.

Lemma playing_to_idle_raises (e : exn) :
  st_state new_state = STATE_IDLE -> old = STATE_PLAYING ->
  elapsed_since (time_past p) now (start_time p) = Raise e ->
  PlaylistPlayer.async_state_changed self new_state now h = (Raise e, h).
Proof.
  intros Hn Ho Ht. unfold PlaylistPlayer.async_state_changed. rewrite Hn.
  simpl String.eqb. cbv iota. unfold h at 1. mrun. rewrite Ho. simpl String.eqb. cbv iota.
  fold h. rewrite bind_assoc. now rewrite (bind_Raise _ _ _ _ _ (accumulate_raises e Ht)).
Qed.

(** playing -> idle, with a time past and a time left that cannot be
    subtracted: the sum is stored, then the test raises *)
Lemma playing_to_idle_test_raises (t : num) (e : exn) :
  st_state new_state = STATE_IDLE -> old = STATE_PLAYING ->
  elapsed_since (time_past p) now (start_time p) = Ok t ->
  within_tolerance t (time_left p) = Raise e ->
  PlaylistPlayer.async_state_changed self new_state now h
  = (Raise e, mkHass ps (<[self := set_time_past t p]> objs) calls).
Proof.
  intros Hn Ho Ht Hv. unfold PlaylistPlayer.async_state_changed. rewrite Hn.
  simpl String.eqb. cbv iota. unfold h at 1. mrun. rewrite Ho. simpl String.eqb. cbv iota.
  fold h. rewrite bind_assoc. rewrite (bind_Ok _ _ _ _ _ (accumulate_eq t Ht)).
  rewrite bind_assoc. mrun. unfold PlaylistPlayer.video_ended. cbn [time_past time_left set_time_past].
  rewrite Hv. reflexivity.
Qed.

(** paused -> idle *)
Lemma paused_to_idle :
  st_state new_state = STATE_IDLE -> old = STATE_PAUSED ->
  PlaylistPlayer.async_state_changed self new_state now h
  = (PlaylistPlayer.async_stop self ;; update self (set_state STATE_IDLE)) h.
Proof.
  intros Hn Ho. unfold PlaylistPlayer.async_state_changed, h. rewrite Hn.
  simpl String.eqb. cbv iota. mrun. rewrite Ho. simpl String.eqb. cbv iota.
  reflexivity.
Qed.

(** idle (or anything but playing and paused) -> idle *)
Lemma other_to_idle :
  st_state new_state = STATE_IDLE -> old <> STATE_PLAYING -> old <> STATE_PAUSED ->
  PlaylistPlayer.async_state_changed self new_state now h
  = (Ok tt, mkHass ps (<[self := set_state STATE_IDLE p]> objs) calls).
Proof.
  intros Hn H1 H2. unfold PlaylistPlayer.async_state_changed, h. rewrite Hn.
  simpl String.eqb. cbv iota. mrun.
  apply String.eqb_neq in H1, H2. rewrite H1, H2. mrun. reflexivity.
Qed.

(** any -> off *)
Lemma to_off :
  st_state new_state = STATE_OFF ->
  PlaylistPlayer.async_state_changed self new_state now h
  = (PlaylistPlayer.async_stop self ;; update self (set_state STATE_OFF)) h.
Proof.
  intros Hn. unfold PlaylistPlayer.async_state_changed, h. rewrite Hn.
  simpl String.eqb. cbv iota. mrun. reflexivity.
Qed.

(** any -> a state that is none of the four *)
Lemma to_unsupported :
  st_state new_state <> STATE_PLAYING -> st_state new_state <> STATE_PAUSED ->
  st_state new_state <> STATE_IDLE -> st_state new_state <> STATE_OFF ->
  PlaylistPlayer.async_state_changed self new_state now h
  = PlaylistPlayer.async_stop self h.
Proof.
  intros H1 H2 H3 H4. unfold PlaylistPlayer.async_state_changed, h.
  apply String.eqb_neq in H1, H2, H3, H4. rewrite H1, H2, H3, H4. mrun. reflexivity.
Qed.

End StateChanged.
(** ** The handlers keep the invariant *)

Lemma keeps_ret {A} (P : hass -> Prop) (a : A) : keeps P (ret a).
Proof. intros h H. simpl. split; [assumption|discriminate]. Qed.

Lemma keeps_raise {A} (P : hass -> Prop) (e : exn) :
  e <> DanglingReference -> keeps P (@raise A e).
Proof. intros He h H. simpl. split; [assumption|congruence]. Qed.

Lemma keeps_bind {A B} (P : hass -> Prop) (m : M A) (k : A -> M B) :
  keeps P m -> (forall a, keeps P (k a)) -> keeps P (bind m k).
Proof.
  intros Hm Hk h H. unfold bind. destruct (Hm h H) as [H1 H2].
  destruct (m h) as [[a|e] h']; simpl in *.
  - apply Hk, H1.
  - split; [assumption|]. congruence.
Qed.

Lemma arithmetic_Ok {A} (a : A) : arithmetic (Ok a).
Proof. intros e H. discriminate H. Qed.

Lemma arithmetic_and_then {A B} (r : result A) (k : A -> result B) :
  arithmetic r -> (forall a, arithmetic (k a)) -> arithmetic (and_then r k).
Proof.
  intros Hr Hk. destruct r as [a|e]; simpl; [apply Hk|].
  intros e' H. injection H as <-. now apply Hr.
Qed.

Lemma arithmetic_to_float (n : num) : arithmetic (to_float n).
Proof.
  destruct n as [z|f]; simpl; [|apply arithmetic_Ok].
  unfold float_of_int. destruct (f64 z 0); try apply arithmetic_Ok.
  intros e H. injection H as <-. now right.
Qed.

Lemma arithmetic_num_sub (a b : num) : arithmetic (num_sub a b).
Proof.
  destruct a as [x|f], b as [y|g]; unfold num_sub; [apply arithmetic_Ok|..];
    (apply arithmetic_and_then; [apply arithmetic_to_float|]; intros ?;
     apply arithmetic_and_then; [apply arithmetic_to_float|]; intros ?; apply arithmetic_Ok).
Qed.

Lemma arithmetic_num_add (a b : num) : arithmetic (num_add a b).
Proof.
  destruct a as [x|f], b as [y|g]; unfold num_add; [apply arithmetic_Ok|..];
    (apply arithmetic_and_then; [apply arithmetic_to_float|]; intros ?;
     apply arithmetic_and_then; [apply arithmetic_to_float|]; intros ?; apply arithmetic_Ok).
Qed.

Lemma arithmetic_as_num (v : value) : arithmetic (as_num v).
Proof.
  destruct v; simpl; try apply arithmetic_Ok; intros e H; injection H as <-; now left.
Qed.

Lemma arithmetic_reported_time_left (s : State) : arithmetic (reported_time_left s).
Proof.
  unfold reported_time_left, py_sub.
  apply arithmetic_and_then; [apply arithmetic_as_num|]. intros x.
  apply arithmetic_and_then; [apply arithmetic_as_num|]. intros y.
  apply arithmetic_num_sub.
Qed.

Lemma arithmetic_elapsed_since (t : num) (now : float) (s : num) :
  arithmetic (elapsed_since t now s).
Proof.
  unfold elapsed_since. apply arithmetic_and_then; [apply arithmetic_num_sub|].
  intros d. apply arithmetic_num_add.
Qed.

Lemma arithmetic_within_tolerance (t l : num) : arithmetic (within_tolerance t l).
Proof.
  unfold within_tolerance. apply arithmetic_and_then; [apply arithmetic_num_sub|].
  intros x. apply arithmetic_Ok.
Qed.

Lemma keeps_lift {A} (P : hass -> Prop) (r : result A) :
  arithmetic r -> keeps P (lift r).
Proof.
  intros Hr h H. unfold lift. simpl. split; [assumption|].
  intros E. destruct (Hr _ E) as [D|D]; discriminate D.
Qed.

Lemma keeps_load (l : loc) : keeps (good l) (load l).
Proof.
  intros h [Hw Hl]. unfold load. cbv beta.
  destruct (lookup_lt_is_Some_2 _ _ Hl) as [p Hp]. rewrite Hp. simpl.
  split; [split; assumption|discriminate].
Qed.

Lemma keeps_getattr {A} (field : player -> option A) (l : loc) :
  keeps (good l) (getattr field l).
Proof.
  apply keeps_bind; [apply keeps_load|]. intros p.
  destruct (field p); [apply keeps_ret|apply keeps_raise; discriminate].
Qed.

Lemma keeps_update (l : loc) (f : player -> player) :
  (forall p, entity_id (f p) = entity_id p) -> keeps (good l) (update l f).
Proof.
  intros Hf h [Hw Hl]. unfold update. cbv beta.
  destruct (lookup_lt_is_Some_2 _ _ Hl) as [p Hp]. rewrite Hp. simpl.
  split; [|discriminate]. split; simpl; [|now rewrite length_insert].
  intros e l0 He. simpl in *. destruct (Hw e l0 He) as (q & Hq & Hqe).
  destruct (decide (l = l0)) as [->|Hne].
  - exists (f p). rewrite (lookup_written _ _ _ Hp). split; [reflexivity|].
    rewrite Hf. congruence.
  - exists q. now rewrite list_lookup_insert_ne.
Qed.

Lemma keeps_add_job (P : hass -> Prop) (c : service_call) :
  (forall h, P h -> P (mkHass (players h) (objects h) (service_calls h ++ [c]))) ->
  keeps P (async_add_job c).
Proof. intros HP h H. unfold async_add_job. simpl. split; [auto|discriminate]. Qed.

Lemma good_add_job (l : loc) (c : service_call) (h : hass) :
  good l h -> good l (mkHass (players h) (objects h) (service_calls h ++ [c])).
Proof. intros [Hw Hl]. split; [exact Hw|exact Hl]. Qed.

Lemma keeps_async_stop (l : loc) : keeps (good l) (PlaylistPlayer.async_stop l).
Proof.
  intros h [Hw Hl]. destruct h as [ps objs calls]. simpl in Hl.
  destruct (lookup_lt_is_Some_2 _ _ Hl) as [p Hp].
  destruct (entity_id p) as [e|] eqn:He.
  - destruct (ps !! e) as [x|] eqn:Hx.
    + rewrite (async_stop_registered ps objs calls l p Hp e x He Hx). simpl.
      split; [|discriminate]. split; simpl; [|now rewrite length_insert].
      intros e' l' H'. simpl in H'. apply lookup_delete_Some in H' as [Hne H'].
      destruct (Hw e' l' H') as (q & Hq & Hqe). simpl in Hq. simpl.
      exists q. split; [|assumption].
      rewrite list_lookup_insert_ne; [assumption|]. intros ->. congruence.
    + rewrite (async_stop_removed ps objs calls l p Hp) by now rewrite He.
      simpl. split; [split; assumption|discriminate].
  - rewrite (async_stop_removed ps objs calls l p Hp) by now rewrite He.
    simpl. split; [split; assumption|discriminate].
Qed.

Lemma keeps_next_track (l : loc) :
  keeps (good l) (PlaylistPlayer.async_media_next_track l).
Proof.
  apply keeps_bind; [apply keeps_getattr|]. intros [|m rest].
  - apply keeps_async_stop.
  - apply keeps_bind; [now apply keeps_update|]. intros _.
    apply keeps_bind; [apply keeps_getattr|]. intros d.
    apply keeps_bind; [now apply keeps_update|]. intros _.
    apply keeps_add_job, good_add_job.
Qed.

Lemma keeps_async_play (l : loc) (cd : gmap string value) :
  keeps (good l) (PlaylistPlayer.async_play l cd).
Proof.
  apply keeps_bind; [apply keeps_load|]. intros p.
  apply keeps_bind; [now apply keeps_update|]. intros _.
  apply keeps_bind.
  { unfold PlaylistPlayer.content_ids.
    destruct (cd !! ATTR_MEDIA_CONTENT_ID) as [[| | | | |]|];
      first [apply keeps_ret | apply keeps_raise; discriminate]. }
  intros ids.
  apply keeps_bind; [now apply keeps_update|]. intros _.
  apply keeps_bind; [now apply keeps_update|]. intros _.
  apply keeps_next_track.
Qed.

Lemma keeps_accumulate (l : loc) (now : float) :
  keeps (good l) (PlaylistPlayer.accumulate l now).
Proof.
  apply keeps_bind; [apply keeps_load|]. intros p.
  apply keeps_bind; [apply keeps_lift, arithmetic_elapsed_since|]. intros t.
  now apply keeps_update.
Qed.

Lemma keeps_state_changed (l : loc) (new_state : State) (now : float) :
  keeps (good l) (PlaylistPlayer.async_state_changed l new_state now).
Proof.
  apply keeps_bind; [apply keeps_getattr|]. intros old.
  repeat match goal with
         | |- keeps _ (if ?b then _ else _) => destruct b
         | |- keeps _ (bind _ _) => apply keeps_bind; [|intros ?]
         | |- keeps _ (let _ := _ in _) => cbv zeta
         end;
    first [ apply keeps_ret | apply keeps_load | now apply keeps_update
          | apply keeps_async_stop | apply keeps_next_track | apply keeps_accumulate
          | apply keeps_lift, arithmetic_reported_time_left
          | apply keeps_lift, arithmetic_within_tolerance ].
Qed.

Lemma wf_good (h : hass) (e : string) (l : loc) :
  wf h -> players h !! e = Some l -> good l h.
Proof.
  intros Hw He. split; [assumption|].
  destruct (Hw e l He) as (p & Hp & _). eapply lookup_lt_Some, Hp.
Qed.

(** From an instance at hand back to the bare invariant. *)
Lemma keeps_good_wf {A} (l : loc) (m : M A) (h : hass) :
  keeps (good l) m -> good l h ->
  wf (snd (m h)) /\ fst (m h) <> Raise DanglingReference.
Proof. intros Hk Hg. destruct (Hk h Hg) as [[Hw _] Hr]. split; assumption. Qed.

(** A new instance, registered under its entity id. *)
Lemma good_new_player (h : hass) (e : string) :
  wf h ->
  good (length (objects h))
       (mkHass (<[e := length (objects h)]> (players h))
               (objects h ++ [__init__ e]) (service_calls h)).
Proof.
  intros Hw. split; simpl.
  - intros e' l' H'. simpl in *. apply lookup_insert_Some in H' as [[<- <-]|[Hne H']].
    + exists (__init__ e). split; [|reflexivity]. apply list_lookup_middle. reflexivity.
    + destruct (Hw e' l' H') as (q & Hq & Hqe). exists q. split; [|assumption].
      rewrite lookup_app_l; [assumption|]. eapply lookup_lt_Some, Hq.
  - rewrite length_app. simpl. lia.
Qed.

Lemma keeps_for_each {A} (P : hass -> Prop) (body : A -> M unit) (l : list A) :
  (forall x, keeps P (body x)) -> keeps P (for_each l body).
Proof.
  intros Hb. induction l as [|x l IH]; simpl.
  - apply keeps_ret.
  - apply keeps_bind; [apply Hb|]. intros _. exact IH.
Qed.

Lemma bind_registry_get {B} (e : string) (k : option loc -> M B) (h : hass) :
  bind (registry_get e) k h = k (players h !! e) h.
Proof. reflexivity. Qed.

Lemma bind_new_player {B} (e : string) (k : loc -> M B) (h : hass) :
  bind (l <- new_player e ;; registry_set e l ;; ret l) k h
  = k (length (objects h))
      (mkHass (<[e := length (objects h)]> (players h))
              (objects h ++ [__init__ e]) (service_calls h)).
Proof. reflexivity. Qed.

Lemma keeps_async_play_media (call_data : gmap string value) :
  keeps wf (async_play_media call_data).
Proof.
  unfold async_play_media.
  destruct (negb (truthy (call_data !! ATTR_ENTITY_ID))).
  { apply keeps_raise. discriminate. }
  apply keeps_bind.
  { unfold iterate. destruct (call_data !! ATTR_ENTITY_ID) as [[| | | | |]|];
      first [apply keeps_ret | apply keeps_raise; discriminate]. }
  intros ids. apply keeps_for_each. intros e h Hw.
  rewrite bind_registry_get.
  destruct (players h !! e) as [l|] eqn:He.
  - rewrite bind_ret. apply (keeps_good_wf l); [apply keeps_async_play|].
    eapply wf_good; eassumption.
  - rewrite bind_new_player.
    apply (keeps_good_wf (length (objects h))); [apply keeps_async_play|].
    now apply good_new_player.
Qed.

Lemma keeps_async_state_changed (ev : event) (now : float) :
  keeps wf (async_state_changed ev now).
Proof.
  intros h Hw. unfold async_state_changed.
  assert (forall r : option loc,
            (forall l, r = Some l -> good l h) ->
            let m := match r with
                     | Some player =>
                         match ev_new_state ev with
                         | Some new_state =>
                             PlaylistPlayer.async_state_changed player new_state now
                         | None => _ <- getattr state player ;; raise AttributeError
                         end
                     | None => ret tt
                     end in
            wf (snd (m h)) /\ fst (m h) <> Raise DanglingReference) as Hr.
  { intros [l|] Hl; simpl.
    - specialize (Hl l eq_refl). destruct (ev_new_state ev) as [ns|].
      + apply (keeps_good_wf l); [apply keeps_state_changed|assumption].
      + apply (keeps_good_wf l); [|assumption].
        apply keeps_bind; [apply keeps_getattr|]. intros _.
        apply keeps_raise. discriminate.
    - split; [assumption|discriminate]. }
  destruct (ev_entity_id ev) as [e|].
  - rewrite bind_registry_get. apply (Hr (players h !! e)).
    intros l Hl. eapply wf_good; eassumption.
  - rewrite bind_ret. apply (Hr None). discriminate.
Qed.

(** The invariant holds when [async_setup] has run, and both handlers keep
    it, whatever they are called with and whether they return or raise;
    neither ever follows a reference that is not in the store. *)
Theorem wf_handlers :
  wf hass0 /\
  (forall cd h, wf h ->
     wf (snd (async_play_media cd h)) /\
     fst (async_play_media cd h) <> Raise DanglingReference) /\
  (forall ev now h, wf h ->
     wf (snd (async_state_changed ev now h)) /\
     fst (async_state_changed ev now h) <> Raise DanglingReference).
Proof.
  split; [|split].
  - intros e l H. discriminate.
  - intros cd h. apply keeps_async_play_media.
  - intros ev now h. apply keeps_async_state_changed.
Qed.

(** ** The claims about the dispatcher *)

(** C5.  A play request whose entity-id list is empty is refused before
    any entity is looked at: the handler raises its error for an empty
    entity id (a [RuntimeError] in this code) and leaves [hass] as it
    was, so no instance is created and the registry is unchanged. *)
Theorem C5_empty_entity_ids (cd : gmap string value) (h : hass) :
  cd !! ATTR_ENTITY_ID = Some (VList []) ->
  async_play_media cd h = (Raise (RuntimeError "Empty entity_id not supported."), h).
Proof. intros H. unfold async_play_media. rewrite H. reflexivity. Qed.

Lemma C5_empty_entity_ids_witness :
  async_play_media (play_request [] "a,b") hass0
  = (Raise (RuntimeError "Empty entity_id not supported."), hass0).
Proof. apply C5_empty_entity_ids. reflexivity. Defined.

(** The same happens when the request carries no entity id at all. *)
Lemma async_play_media_no_entity_id (cd : gmap string value) (h : hass) :
  cd !! ATTR_ENTITY_ID = None ->
  async_play_media cd h = (Raise (RuntimeError "Empty entity_id not supported."), h).
Proof. intros H. unfold async_play_media. rewrite H. reflexivity. Qed.

(** C6.  A state-changed event for an entity that has no instance in the
    registry does nothing: the handler returns normally and [hass] is
    unchanged (no instance created, registry as before). *)
Theorem C6_unknown_entity (ev : event) (now : float) (h : hass) :
  match ev_entity_id ev with
  | Some e => players h !! e = None
  | None => True
  end ->
  async_state_changed ev now h = (Ok tt, h).
Proof.
  intros H. unfold async_state_changed. destruct (ev_entity_id ev) as [e|].
  - rewrite bind_registry_get, H. reflexivity.
  - reflexivity.
Qed.

Lemma C6_unknown_entity_witness :
  async_state_changed (state_event "tv" STATE_PLAYING (VInt 100) (VInt 0)) (seconds 1000) hass0
  = (Ok tt, hass0).
Proof. apply C6_unknown_entity. reflexivity. Defined.

(** ** The claims about [async_play] and [async_stop] *)

(** C9.  [split] never yields an empty list (the empty string gives the
    list with the empty string), so [async_play] on a live instance with a
    string as content id always pops a first id and adds exactly one
    service call for it; the registry and the [entity_id] of the instance
    stay as they were, which [async_stop] would not leave so. *)
Theorem C9_play_dispatches_once
    (ps : gmap string loc) (objs : list player) (calls : list service_call)
    (self : loc) (p : player) (cd : gmap string value) (s : string) :
  objs !! self = Some p ->
  cd !! ATTR_MEDIA_CONTENT_ID = Some (VStr s) ->
  split "," EmptyString = [EmptyString] /\
  exists m rest,
    split "," s = m :: rest /\
    let d := <[ATTR_MEDIA_CONTENT_ID := VStr m]>
               (<[ATTR_ENTITY_ID := PlaylistPlayer.id_value (entity_id p)]> cd) in
    PlaylistPlayer.async_play self cd (mkHass ps objs calls)
    = (Ok tt,
       mkHass ps
         (<[self := mkPlayer (entity_id p) (start_time p) (time_left p) (time_past p)
                             (Some d) (Some rest) (Some STATE_IDLE)]> objs)
         (calls ++ [mkCall MEDIA_PLAYER_DOMAIN SERVICE_PLAY_MEDIA d])).
Proof.
  intros Hself Hc. split; [reflexivity|].
  destruct (split_cons "," s) as (m & rest & Hs). exists m, rest.
  split; [exact Hs|]. now apply async_play_str with (s := s).
Qed.

Lemma C9_play_dispatches_once_witness :
  exists m rest,
    split "," EmptyString = m :: rest /\
    PlaylistPlayer.async_play 0 (play_request ["tv"] EmptyString)
      (mkHass ∅ [__init__ "tv"] [])
    = (Ok tt,
       mkHass ∅
         [mkPlayer (Some "tv") (Int 0) (Int 0) (Int 0)
            (Some (<[ATTR_MEDIA_CONTENT_ID := VStr m]>
                     (<[ATTR_ENTITY_ID := VStr "tv"]> (play_request ["tv"] EmptyString))))
            (Some rest) (Some STATE_IDLE)]
         [mkCall MEDIA_PLAYER_DOMAIN SERVICE_PLAY_MEDIA
            (<[ATTR_MEDIA_CONTENT_ID := VStr m]>
               (<[ATTR_ENTITY_ID := VStr "tv"]> (play_request ["tv"] EmptyString)))]).
Proof.
  exact (proj2 (C9_play_dispatches_once ∅ [__init__ "tv"] [] 0 (__init__ "tv")
                  (play_request ["tv"] EmptyString) EmptyString eq_refl eq_refl)).
Defined.

(** C10.  [async_stop] on the instance registered for [e] removes the
    entry of [e] and nothing else: every other entity id keeps its entry,
    the instance that entry refers to keeps all its fields, and no service
    call is added. *)
Theorem C10_stop_frame (h : hass) (e : string) (self : loc) :
  wf h -> players h !! e = Some self ->
  exists h',
    PlaylistPlayer.async_stop self h = (Ok tt, h') /\
    players h' = delete e (players h) /\
    service_calls h' = service_calls h /\
    forall e', e' <> e ->
      players h' !! e' = players h !! e' /\
      forall l', players h !! e' = Some l' -> objects h' !! l' = objects h !! l'.
Proof.
  intros Hw He. destruct (Hw e self He) as (p & Hp & Hpe).
  destruct h as [ps objs calls]. simpl in *.
  rewrite (async_stop_registered ps objs calls self p Hp e self Hpe He).
  eexists. split; [reflexivity|]. simpl. split; [reflexivity|]. split; [reflexivity|].
  intros e' Hne. split; [now apply lookup_delete_ne|].
  intros l' Hl'. apply list_lookup_insert_ne. intros <-.
  destruct (Hw e' self Hl') as (q & Hq & Hqe). simpl in Hq. congruence.
Qed.

Lemma C10_stop_frame_witness :
  exists h',
    PlaylistPlayer.async_stop 0 two_players = (Ok tt, h') /\
    players h' = delete "tv" (players two_players) /\
    service_calls h' = service_calls two_players /\
    forall e', e' <> "tv" ->
      players h' !! e' = players two_players !! e' /\
      forall l', players two_players !! e' = Some l' ->
                 objects h' !! l' = objects two_players !! l'.
Proof.
  apply (C10_stop_frame two_players "tv" 0).
  - apply keeps_async_play_media, wf_handlers.
  - vm_compute. reflexivity.
Defined.

(** C7.  [async_stop] is not guarded against a second removal.  On an
    instance whose entity id is not (or no longer) a key of the registry
    the [del] raises [KeyError] and nothing changes; on a registered
    instance it removes the entry and clears [entity_id], so that a second
    call on the same instance raises [KeyError]. *)
Theorem C7_stop_not_guarded
    (ps : gmap string loc) (objs : list player) (calls : list service_call)
    (self : loc) (p : player) :
  objs !! self = Some p ->
  (match entity_id p with
   | Some e => ps !! e = None
   | None => True
   end ->
   PlaylistPlayer.async_stop self (mkHass ps objs calls)
   = (Raise (KeyError (entity_id p)), mkHass ps objs calls)) /\
  (forall e x, entity_id p = Some e -> ps !! e = Some x ->
     let h' := mkHass (delete e ps) (<[self := set_entity_id None p]> objs) calls in
     PlaylistPlayer.async_stop self (mkHass ps objs calls) = (Ok tt, h') /\
     PlaylistPlayer.async_stop self h' = (Raise (KeyError None), h')).
Proof.
  intros Hself. split.
  - now apply async_stop_removed.
  - intros e x He Hx h'. split.
    + now apply async_stop_registered with (x := x).
    + unfold h'.
      apply (async_stop_removed _ _ _ self (set_entity_id None p)
               (lookup_written _ _ _ Hself _) I).
Qed.

Lemma C7_stop_not_guarded_witness :
  let h' := mkHass (delete "tv" {["tv" := 0]}) [set_entity_id None (__init__ "tv")] [] in
  PlaylistPlayer.async_stop 0 (mkHass {["tv" := 0]} [__init__ "tv"] []) = (Ok tt, h') /\
  PlaylistPlayer.async_stop 0 h' = (Raise (KeyError None), h').
Proof.
  exact (proj2 (C7_stop_not_guarded {["tv" := 0]} [__init__ "tv"] [] 0 (__init__ "tv") eq_refl)
               "tv" 0 eq_refl eq_refl).
Defined.

(** C7, as first stated, fails: after the off event has stopped the
    playlist of "tv", its instance is out of the registry, and calling
    [async_stop] on it again raises [KeyError]. *)
Lemma C7_second_stop_raises :
  players stopped_once = ∅ /\
  (entity_id <$> objects stopped_once !! 0) = Some None /\
  outcome (PlaylistPlayer.async_stop 0) stopped_once = Raise (KeyError None).
Proof. vm_compute. repeat split. Qed.

(** ** The claims about the transition table *)

(** [async_stop] on a registered instance, then the final assignment to
    [self.state], which lands on the instance just removed. *)
Lemma stop_then_set_state
    (ps : gmap string loc) (objs : list player) (calls : list service_call)
    (self : loc) (p : player) (e s : string) (x : loc) :
  objs !! self = Some p -> entity_id p = Some e -> ps !! e = Some x ->
  (PlaylistPlayer.async_stop self ;; update self (set_state s)) (mkHass ps objs calls)
  = (Ok tt, mkHass (delete e ps) (<[self := set_state s (set_entity_id None p)]> objs) calls).
Proof.
  intros Hself He Hx. unfold bind.
  rewrite (async_stop_registered ps objs calls self p Hself e x He Hx).
  erewrite update_eq by (eapply lookup_written; eassumption).
  now rewrite list_insert_insert_eq.
Qed.

(** [async_media_next_track] with an id pending, then the final
    assignment to [self.state]. *)
Lemma next_then_set_state
    (ps : gmap string loc) (objs : list player) (calls : list service_call)
    (self : loc) (p : player) (s m : string) (rest : list string) (d : gmap string value) :
  objs !! self = Some p -> media_ids p = Some (m :: rest) -> data p = Some d ->
  (PlaylistPlayer.async_media_next_track self ;; update self (set_state s))
    (mkHass ps objs calls)
  = (Ok tt,
     mkHass ps
       (<[self := set_state s (set_data (<[ATTR_MEDIA_CONTENT_ID := VStr m]> d)
                                        (set_media_ids rest p))]> objs)
       (calls ++ [item_call d m])).
Proof.
  intros Hself Hm Hd. unfold bind.
  rewrite (next_track_cons ps objs calls self p Hself m rest d Hm Hd).
  erewrite update_eq by (eapply lookup_written; eassumption).
  now rewrite list_insert_insert_eq.
Qed.

(** The float arithmetic of the code at the numbers of the examples:
    a time past of [x], accumulated from 0, against a time left of 100. *)
Lemma elapsed_from_zero (now start : float) :
  elapsed_since (Int 0) now (Float start) = Ok (Float (fadd (S754_zero false) (fsub now start))).
Proof. reflexivity. Qed.



(** The two runs of the claim, through the event handler: "tv" plays the
    first of two items, of duration 100 at position 0, since time 1000. *)
Example idle_after_100_5_advances :
  let h := run (async_state_changed (state_event "tv" STATE_IDLE (VInt 0) (VInt 0))
                                    (seconds_and_half 1100)) playing_tv in
  players h !! "tv" = Some 0 /\
  map (fun c => call_data c !! ATTR_MEDIA_CONTENT_ID) (service_calls h)
  = [Some (VStr "a"); Some (VStr "b")].
Proof. vm_compute. split; reflexivity. Qed.

Example idle_after_50_stops :
  let h := run (async_state_changed (state_event "tv" STATE_IDLE (VInt 0) (VInt 0))
                                    (seconds 1050)) playing_tv in
  players h !! "tv" = None /\
  map (fun c => call_data c !! ATTR_MEDIA_CONTENT_ID) (service_calls h)
  = [Some (VStr "a")].
Proof. vm_compute. split; reflexivity. Qed.

(** The test is the one of the floats: 2.5 seconds played against a time
    left of 0.5000000000000001 differ by 2 - 2^-53, which rounds to 2.0,
    so the test fails; a time past of 2.5 + 2^-52 against a time left of
    0.5 + 2^-52 differ by 2, and what the floats give is 2 - 2^-52 (the
    sum rounds down to 2.5), so the test holds. *)
Example tolerance_on_rounded_difference :
  within_tolerance (Float (seconds_and_half 2)) (Float (f64 (2 ^ 52 + 1) (-53))) = Ok false /\
  and_then (elapsed_since (Float (seconds_and_half 2)) (f64 1 (-52)) (Float (seconds 0)))
           (fun t => within_tolerance t (Float (f64 (2 ^ 51 + 1) (-52)))) = Ok true.
Proof. vm_compute. split; reflexivity. Qed.

(** C3, amended.  On paused -> playing, with a duration and a position
    that can be subtracted, [start_time] becomes "now" and [state]
    playing.  [time_past] and [time_left] are kept as they are only when
    the difference [duration - position] read off the new state compares
    equal ([==] of Python, on the float the subtraction gave) to the time
    left stored; when it compares different the timing is reset:
    [time_past] to 0, [time_left] to the difference.  When the difference
    cannot be computed the handler raises what the subtraction raised and
    changes nothing. *)
Theorem C3_paused_to_playing
    (ps : gmap string loc) (objs : list player) (calls : list service_call)
    (self : loc) (p : player) (new_state : State) (now : float) :
  objs !! self = Some p ->
  state p = Some STATE_PAUSED ->
  st_state new_state = STATE_PLAYING ->
  (forall ntl, reported_time_left new_state = Ok ntl ->
   exists p',
     PlaylistPlayer.async_state_changed self new_state now (mkHass ps objs calls)
     = (Ok tt, mkHass ps (<[self := p']> objs) calls) /\
     start_time p' = Float now /\
     state p' = Some STATE_PLAYING /\
     entity_id p' = entity_id p /\ data p' = data p /\ media_ids p' = media_ids p /\
     (num_eqb ntl (time_left p) = true ->
      time_past p' = time_past p /\ time_left p' = time_left p) /\
     (num_eqb ntl (time_left p) = false ->
      time_past p' = Int 0 /\ time_left p' = ntl)) /\
  (forall e, reported_time_left new_state = Raise e ->
   PlaylistPlayer.async_state_changed self new_state now (mkHass ps objs calls)
   = (Raise e, mkHass ps objs calls)).
Proof.
  intros Hself Hst Hn. split.
  - intros ntl Ht.
    rewrite (to_playing ps objs calls self p STATE_PAUSED new_state now Hself Hst ntl Hn Ht).
    eexists. split; [reflexivity|]. simpl orb.
    destruct (num_eqb ntl (time_left p)); simpl negb; cbv iota.
    + do 5 (split; [reflexivity|]). split; [intros _; split; reflexivity|discriminate].
    + do 5 (split; [reflexivity|]). split; [discriminate|intros _; split; reflexivity].
  - intros e Ht.
    exact (to_playing_raises ps objs calls self p STATE_PAUSED new_state now Hself Hst e Hn Ht).
Qed.

Lemma C3_paused_to_playing_witness :
  let d : gmap string value := {[ATTR_MEDIA_CONTENT_ID := VStr "a"]} in
  let p := mkPlayer (Some "tv") (Float (seconds 1000)) (Int 100) (Float (seconds 30))
                    (Some d) (Some ["b"]) (Some STATE_PAUSED) in
  let new_state := mkState STATE_PLAYING {[ATTR_MEDIA_DURATION := VFloat (seconds 100)]} in
  exists p',
    PlaylistPlayer.async_state_changed 0 new_state (seconds 1040) (mkHass {["tv" := 0]} [p] [])
    = (Ok tt, mkHass {["tv" := 0]} (<[0 := p']> [p]) []) /\
    start_time p' = Float (seconds 1040) /\
    state p' = Some STATE_PLAYING /\
    entity_id p' = entity_id p /\ data p' = data p /\ media_ids p' = media_ids p /\
    (num_eqb (Float (seconds 100)) (time_left p) = true ->
     time_past p' = time_past p /\ time_left p' = time_left p) /\
    (num_eqb (Float (seconds 100)) (time_left p) = false ->
     time_past p' = Int 0 /\ time_left p' = Float (seconds 100)).
Proof.
  intros d p new_state.
  refine (proj1 (C3_paused_to_playing {["tv" := 0]} [p] [] 0 p new_state (seconds 1040)
                   eq_refl eq_refl eq_refl) (Float (seconds 100)) _).
  vm_compute. reflexivity.
Defined.

(** C3, as first stated, fails: "tv" is paused with 30 of 100 seconds
    played; the playing state that follows reports position 30, so the
    time left is read anew as 70 and the accumulated time goes back
    to 0. *)
Lemma C3_resume_with_position_resets :
  let h := run (async_state_changed (state_event "tv" STATE_PLAYING (VInt 100) (VInt 30))
                                    (seconds 1040)) paused_tv in
  (state <$> objects paused_tv !! 0) = Some (Some STATE_PAUSED) /\
  (time_past <$> objects paused_tv !! 0) = Some (Float (seconds 30)) /\
  (time_left <$> objects paused_tv !! 0) = Some (Int 100) /\
  (state <$> objects h !! 0) = Some (Some STATE_PLAYING) /\
  (start_time <$> objects h !! 0) = Some (Float (seconds 1040)) /\
  (time_past <$> objects h !! 0) = Some (Int 0) /\
  (time_left <$> objects h !! 0) = Some (Int 70) /\
  num_eqb (Int 0) (Float (seconds 30)) = false /\
  num_eqb (Int 70) (Int 100) = false.
Proof. vm_compute. repeat split. Qed.

(** The comparison is the one of the floats: a duration of 100.3 at
    position 0.1 gives a difference that compares equal to a stored time
    left of 100.2, so the timing is kept; an int 100 and a float 100.0
    compare equal too. *)
Example time_left_compared_as_floats :
  let new_state :=
    mkState STATE_PLAYING
      (<[ATTR_MEDIA_DURATION := VFloat (f64 7057985041019699 (-46))]>
         {[ATTR_MEDIA_POSITION := VFloat (f64 7205759403792794 (-56))]}) in
  reported_time_left new_state = Ok (Float (f64 7050948166601933 (-46))) /\
  num_eqb (Float (seconds 100)) (Int 100) = true.
Proof. vm_compute. split; reflexivity. Qed.

(** The effect of an event on a live instance, row by row, when the
    arithmetic of the row raises nothing ([ended] being what the tolerance
    test gave, on playing -> idle): the registry loses the entity exactly
    on [Stop], a service call is added exactly on [Advance] (for the first
    pending id, which is popped), and otherwise only the timing and
    [state] of the instance change; each timing field is as before or
    takes a value the handler has just read or computed. *)
Lemma transition_effect
    (ps : gmap string loc) (objs : list player) (calls : list service_call)
    (self : loc) (p : player) (new_state : State) (now : float)
    (old e : string) (x : loc) (ids : list string) (d : gmap string value)
    (ended : bool) :
  objs !! self = Some p ->
  state p = Some old -> media_ids p = Some ids -> data p = Some d ->
  entity_id p = Some e -> ps !! e = Some x ->
  (st_state new_state = STATE_PLAYING ->
   exists ntl, reported_time_left new_state = Ok ntl) ->
  (old = STATE_PLAYING -> st_state new_state = STATE_PAUSED ->
   exists t, elapsed_since (time_past p) now (start_time p) = Ok t) ->
  (old = STATE_PLAYING -> st_state new_state = STATE_IDLE ->
   exists t, elapsed_since (time_past p) now (start_time p) = Ok t /\
             within_tolerance t (time_left p) = Ok ended) ->
  let a := classify old (st_state new_state) ended ids in
  exists p',
    PlaylistPlayer.async_state_changed self new_state now (mkHass ps objs calls)
    = (Ok tt,
       mkHass (match a with Stop => delete e ps | _ => ps end)
              (<[self := p']> objs)
              (match a with
               | Advance => calls ++ [item_call d (hd EmptyString ids)]
               | _ => calls
               end)) /\
    entity_id p' = (match a with Stop => None | _ => Some e end) /\
    media_ids p' = Some (match a with Advance => tl ids | _ => ids end) /\
    is_Some (data p') /\
    state p' = Some (if supported (st_state new_state) then st_state new_state else old) /\
    (a <> Stop -> live_state (st_state new_state) = true) /\
    (start_time p' = start_time p \/ start_time p' = Float now) /\
    (time_left p' = time_left p \/ reported_time_left new_state = Ok (time_left p')) /\
    (time_past p' = time_past p \/ time_past p' = Int 0 \/
     elapsed_since (time_past p) now (start_time p) = Ok (time_past p')).
Proof.
  intros Hself Hst Hids Hd He Hx A1 A2 A3 a. unfold classify in a. unfold supported.
  pose proof (fun q => lookup_written objs self p Hself q) as Hw.
  destruct (String.eqb_spec (st_state new_state) STATE_PLAYING) as [Hn|N1].
  { destruct (A1 Hn) as [ntl Ht].
    rewrite (to_playing ps objs calls self p old new_state now Hself Hst ntl Hn Ht).
    subst a. rewrite Hn. eexists. split; [reflexivity|].
    destruct (_ || _); [|destruct (String.eqb old STATE_PAUSED)];
      (split; [exact He|split; [exact Hids|split; [exists d; exact Hd|]]]);
      (split; [reflexivity|]); (split; [intros _; reflexivity|]);
      simpl; auto. }
  destruct (String.eqb_spec (st_state new_state) STATE_PAUSED) as [Hn|N2].
  { subst a. rewrite Hn. destruct (String.eqb_spec old STATE_PLAYING) as [Ho|O1].
    - destruct (A2 Ho Hn) as [t Ht].
      rewrite (playing_to_paused ps objs calls self p old new_state now Hself Hst t Hn Ho Ht).
      eexists. split; [reflexivity|].
      split; [exact He|split; [exact Hids|split; [exists d; exact Hd|]]].
      split; [reflexivity|]. split; [intros _; reflexivity|]. simpl; auto.
    - rewrite (other_to_paused ps objs calls self p old new_state now Hself Hst Hn O1).
      eexists. split; [reflexivity|].
      split; [exact He|split; [exact Hids|split; [exists d; exact Hd|]]].
      split; [reflexivity|]. split; [intros _; reflexivity|]. simpl; auto. }
  destruct (String.eqb_spec (st_state new_state) STATE_IDLE) as [Hn|N3].
  { destruct (String.eqb_spec old STATE_PLAYING) as [Ho|O1].
    { destruct (A3 Ho Hn) as (t & Ht & Hv).
      rewrite (playing_to_idle ps objs calls self p old new_state now Hself Hst t ended
                 Hn Ho Ht Hv).
      set (p1 := set_time_past t p) in *. rewrite Hn. simpl orb.
      destruct ended.
      - destruct ids as [|m rest]; subst a.
        + unfold bind at 1.
          rewrite (next_track_nil ps _ calls self p1 (Hw p1) Hids).
          pose proof (stop_then_set_state ps _ calls self p1 e STATE_IDLE x (Hw p1) He Hx) as E.
          unfold bind at 1 in E. rewrite E, list_insert_insert_eq.
          eexists. split; [reflexivity|]. split; [reflexivity|]. split; [exact Hids|].
          split; [exists d; exact Hd|]. split; [reflexivity|].
          split; [congruence|]. simpl; auto.
        + rewrite (next_then_set_state ps _ calls self p1 STATE_IDLE m rest d (Hw p1) Hids Hd).
          rewrite list_insert_insert_eq.
          eexists. split; [reflexivity|]. split; [exact He|]. split; [reflexivity|].
          split; [eexists; reflexivity|]. split; [reflexivity|].
          split; [intros _; reflexivity|]. simpl; auto.
      - subst a.
        rewrite (stop_then_set_state ps _ calls self p1 e STATE_IDLE x (Hw p1) He Hx).
        rewrite list_insert_insert_eq.
        eexists. split; [reflexivity|]. split; [reflexivity|]. split; [exact Hids|].
        split; [exists d; exact Hd|]. split; [reflexivity|].
        split; [congruence|]. simpl; auto. }
    destruct (String.eqb_spec old STATE_PAUSED) as [Ho|O2]; subst a.
    { rewrite (paused_to_idle ps objs calls self p old new_state now Hself Hst Hn Ho).
      rewrite (stop_then_set_state ps _ calls self p e STATE_IDLE x Hself He Hx).
      rewrite Hn. eexists. split; [reflexivity|]. split; [reflexivity|]. split; [exact Hids|].
      split; [exists d; exact Hd|]. split; [reflexivity|].
      split; [congruence|]. simpl; auto. }
    rewrite (other_to_idle ps objs calls self p old new_state now Hself Hst Hn O1 O2).
    rewrite Hn. eexists. split; [reflexivity|]. split; [exact He|]. split; [exact Hids|].
    split; [exists d; exact Hd|]. split; [reflexivity|].
    split; [intros _; reflexivity|]. simpl; auto. }
  subst a.
  destruct (String.eqb_spec (st_state new_state) STATE_OFF) as [Hn|N4].
  { rewrite (to_off ps objs calls self p old new_state now Hself Hst Hn).
    rewrite (stop_then_set_state ps _ calls self p e STATE_OFF x Hself He Hx).
    rewrite Hn. eexists. split; [reflexivity|]. split; [reflexivity|]. split; [exact Hids|].
    split; [exists d; exact Hd|]. split; [reflexivity|].
    split; [congruence|]. simpl; auto. }
  rewrite (to_unsupported ps objs calls self p old new_state now Hself Hst N1 N2 N3 N4).
  rewrite (async_stop_registered ps objs calls self p Hself e x He Hx).
  eexists. split; [reflexivity|]. split; [reflexivity|]. split; [exact Hids|].
  split; [exists d; exact Hd|]. split; [exact Hst|].
  split; [congruence|]. simpl; auto.
Qed.

(** The rows of the table that end the playlist, and those that do not. *)
Lemma classify_stop (old new : string) (ended : bool) (ids : list string) :
  new = STATE_OFF \/ supported new = false \/
  (new = STATE_IDLE /\ old = STATE_PAUSED) \/
  (new = STATE_IDLE /\ old = STATE_PLAYING /\ (ended = false \/ ids = [])) ->
  classify old new ended ids = Stop.
Proof.
  unfold classify, supported.
  intros [->|[H|[[-> ->]|(-> & -> & H)]]]; [reflexivity| |reflexivity|].
  - destruct (String.eqb new STATE_PLAYING); [discriminate H|].
    destruct (String.eqb new STATE_PAUSED); [discriminate H|].
    destruct (String.eqb new STATE_IDLE); [discriminate H|]. reflexivity.
  - simpl. destruct H as [->| ->]; [reflexivity|]. now destruct ended.
Qed.

Lemma classify_not_stop (old new : string) (ended : bool) (ids : list string) :
  new = STATE_PLAYING \/ new = STATE_PAUSED \/
  (new = STATE_IDLE /\ old <> STATE_PLAYING /\ old <> STATE_PAUSED) \/
  (new = STATE_IDLE /\ old = STATE_PLAYING /\ ended = true /\ ids <> []) ->
  classify old new ended ids <> Stop.
Proof.
  unfold classify.
  intros [->|[->|[(-> & H1 & H2)|(-> & -> & -> & H)]]]; simpl; try discriminate.
  - apply String.eqb_neq in H1, H2. rewrite H1, H2. discriminate.
  - destruct ids; [contradiction|discriminate].
Qed.

(** C8, amended.  On a live, registered instance, when the arithmetic of
    the row raises nothing, the handler returns normally, and for each of
    the four states it tells apart it ends by writing the new state into
    [self.state] -- also on the rows that call [async_stop]: off, paused
    -> idle, and playing -> idle when the tolerance test fails or no
    media id is pending.  On those rows, and for a state that is none of
    the four, the entity has left the registry and [entity_id] is [None];
    only for a state that is none of the four does the handler return
    right after [async_stop], leaving [self.state] as it was.  On every
    other row the entity stays registered. *)
Theorem C8_final_state_write
    (ps : gmap string loc) (objs : list player) (calls : list service_call)
    (self : loc) (p : player) (new_state : State) (now : float)
    (old e : string) (x : loc) (ids : list string) (d : gmap string value)
    (ended : bool) :
  objs !! self = Some p ->
  state p = Some old -> media_ids p = Some ids -> data p = Some d ->
  entity_id p = Some e -> ps !! e = Some x ->
  (st_state new_state = STATE_PLAYING ->
   exists ntl, reported_time_left new_state = Ok ntl) ->
  (old = STATE_PLAYING -> st_state new_state = STATE_PAUSED ->
   exists t, elapsed_since (time_past p) now (start_time p) = Ok t) ->
  (old = STATE_PLAYING -> st_state new_state = STATE_IDLE ->
   exists t, elapsed_since (time_past p) now (start_time p) = Ok t /\
             within_tolerance t (time_left p) = Ok ended) ->
  exists h' p',
    PlaylistPlayer.async_state_changed self new_state now (mkHass ps objs calls) = (Ok tt, h') /\
    objects h' !! self = Some p' /\
    state p' = Some (if supported (st_state new_state) then st_state new_state else old) /\
    (st_state new_state = STATE_OFF \/
     supported (st_state new_state) = false \/
     (st_state new_state = STATE_IDLE /\ old = STATE_PAUSED) \/
     (st_state new_state = STATE_IDLE /\ old = STATE_PLAYING /\
      (ended = false \/ ids = [])) ->
     players h' !! e = None /\ entity_id p' = None) /\
    (st_state new_state = STATE_PLAYING \/
     st_state new_state = STATE_PAUSED \/
     (st_state new_state = STATE_IDLE /\ old <> STATE_PLAYING /\ old <> STATE_PAUSED) \/
     (st_state new_state = STATE_IDLE /\ old = STATE_PLAYING /\
      ended = true /\ ids <> []) ->
     players h' !! e = Some x /\ entity_id p' = Some e).
Proof.
  intros Hself Hst Hids Hd He Hx A1 A2 A3.
  destruct (transition_effect ps objs calls self p new_state now old e x ids d ended
              Hself Hst Hids Hd He Hx A1 A2 A3) as (p' & E & Hid & _ & _ & Hs & _).
  eexists _, p'. split; [exact E|]. simpl.
  split; [exact (lookup_written objs self p Hself p')|]. split; [exact Hs|]. split.
  - intros H. apply (classify_stop old _ ended ids) in H. rewrite H in Hid |- *.
    split; [apply lookup_delete_eq|exact Hid].
  - intros H. apply (classify_not_stop old _ ended ids) in H.
    destruct (classify old (st_state new_state) ended ids); [auto|auto|contradiction].
Qed.

Lemma C8_final_state_write_witness :
  let d : gmap string value := {[ATTR_MEDIA_CONTENT_ID := VStr "a"]} in
  let p := mkPlayer (Some "tv") (Float (seconds 1000)) (Int 100) (Int 0)
                    (Some d) (Some ["b"]) (Some STATE_PLAYING) in
  let new_state := mkState STATE_IDLE ∅ in
  exists h' p',
    PlaylistPlayer.async_state_changed 0 new_state (seconds 1050) (mkHass {["tv" := 0]} [p] [])
    = (Ok tt, h') /\
    objects h' !! 0 = Some p' /\
    state p' = Some STATE_IDLE /\
    players h' !! "tv" = None /\ entity_id p' = None.
Proof.
  intros d p new_state.
  assert (Hx : ({["tv" := 0]} : gmap string loc) !! "tv" = Some 0) by reflexivity.
  destruct (C8_final_state_write {["tv" := 0]} [p] [] 0 p new_state (seconds 1050)
              STATE_PLAYING "tv" 0 ["b"] d false
              eq_refl eq_refl eq_refl eq_refl eq_refl Hx)
    as (h' & p' & E & Hp & Hs & Hstop & _).
  - intros H. cbv in H. discriminate H.
  - intros _ H. cbv in H. discriminate H.
  - intros _ _. exists (Float (seconds 50)). split; vm_compute; reflexivity.
  - exists h', p'. split; [exact E|]. split; [exact Hp|]. split; [exact Hs|].
    apply Hstop. right. right. right. split; [reflexivity|]. split; [reflexivity|].
    left. reflexivity.
Defined.

(** C8, as first stated, fails on the off row: "tv" is playing, the off
    event makes the handler call [async_stop] (the entry of "tv" is gone
    and [entity_id] is cleared), and [self.state] is written all the same:
    it was playing and is off afterwards. *)
Lemma C8_state_written_after_stop :
  let h := run (async_state_changed (state_event "tv" STATE_OFF (VInt 0) (VInt 0))
                                    (seconds 1010)) playing_tv in
  players playing_tv !! "tv" = Some 0 /\
  (state <$> objects playing_tv !! 0) = Some (Some STATE_PLAYING) /\
  players h !! "tv" = None /\
  (entity_id <$> objects h !! 0) = Some None /\
  (state <$> objects h !! 0) = Some (Some STATE_OFF).
Proof. vm_compute. repeat split. Qed.
(** ** The claims about a play request *)

(** A play request for the single entity [e], already registered. *)
Lemma async_play_media_registered
    (ps : gmap string loc) (objs : list player) (calls : list service_call)
    (e : string) (self : loc) (cd : gmap string value) :
  cd !! ATTR_ENTITY_ID = Some (VList [e]) ->
  ps !! e = Some self ->
  async_play_media cd (mkHass ps objs calls)
  = PlaylistPlayer.async_play self cd (mkHass ps objs calls).
Proof.
  intros Hc He. unfold async_play_media. rewrite Hc. simpl.
  rewrite bind_ret. simpl. rewrite bind_assoc, bind_registry_get. simpl. rewrite He.
  rewrite bind_assoc, bind_ret. unfold bind.
  destruct (PlaylistPlayer.async_play self cd (mkHass ps objs calls)) as [[[]|x] h']; reflexivity.
Qed.

(** A play request for the single entity [e], not registered yet. *)
Lemma async_play_media_new
    (ps : gmap string loc) (objs : list player) (calls : list service_call)
    (e : string) (cd : gmap string value) :
  cd !! ATTR_ENTITY_ID = Some (VList [e]) ->
  ps !! e = None ->
  async_play_media cd (mkHass ps objs calls)
  = PlaylistPlayer.async_play (length objs) cd
      (mkHass (<[e := length objs]> ps) (objs ++ [__init__ e]) calls).
Proof.
  intros Hc He. unfold async_play_media. rewrite Hc. simpl.
  rewrite bind_ret. simpl. rewrite bind_assoc, bind_registry_get. simpl. rewrite He.
  rewrite bind_assoc, bind_new_player. simpl. unfold bind.
  destruct (PlaylistPlayer.async_play _ cd _) as [[[]|x] h']; reflexivity.
Qed.

(** C4, amended.  A play request for an entity that has a live instance
    uses that instance again: the registry and the number of instances are
    as before; [async_play] replaces [data] by the options of the request
    (with the entity id of the instance and the first media id), sets
    [media_ids] to the ids that follow the first and [state] to idle, and
    sends the first id to the media player; [start_time], [time_left] and
    [time_past] keep the values the previous playlist left. *)
Theorem C4_play_reuses_instance
    (ps : gmap string loc) (objs : list player) (calls : list service_call)
    (e : string) (self : loc) (p : player) (cd : gmap string value) (s : string) :
  ps !! e = Some self ->
  objs !! self = Some p ->
  cd !! ATTR_ENTITY_ID = Some (VList [e]) ->
  cd !! ATTR_MEDIA_CONTENT_ID = Some (VStr s) ->
  let d := <[ATTR_MEDIA_CONTENT_ID := VStr (hd EmptyString (split "," s))]>
             (<[ATTR_ENTITY_ID := PlaylistPlayer.id_value (entity_id p)]> cd) in
  exists h' p',
    async_play_media cd (mkHass ps objs calls) = (Ok tt, h') /\
    players h' = ps /\
    length (objects h') = length objs /\
    (forall l, l <> self -> objects h' !! l = objs !! l) /\
    objects h' !! self = Some p' /\
    start_time p' = start_time p /\
    time_left p' = time_left p /\
    time_past p' = time_past p /\
    entity_id p' = entity_id p /\
    state p' = Some STATE_IDLE /\
    media_ids p' = Some (tl (split "," s)) /\
    data p' = Some d /\
    service_calls h' = calls ++ [mkCall MEDIA_PLAYER_DOMAIN SERVICE_PLAY_MEDIA d].
Proof.
  intros He Hself Hc Hs d.
  rewrite (async_play_media_registered ps objs calls e self cd Hc He).
  destruct (split_cons "," s) as (m & rest & Hsplit).
  rewrite (async_play_str ps objs calls self p cd s m rest Hself Hs Hsplit).
  eexists _, _. split; [reflexivity|]. simpl.
  split; [reflexivity|]. split; [apply length_insert|].
  split; [intros l Hl; now apply list_lookup_insert_ne|].
  split; [eapply lookup_written, Hself|]. subst d. rewrite Hsplit. repeat split.
Qed.

Lemma C4_play_reuses_instance_witness :
  let d : gmap string value := {[ATTR_MEDIA_CONTENT_ID := VStr "a"]} in
  let p := mkPlayer (Some "tv") (Float (seconds 1000)) (Int 100) (Float (seconds 30))
                    (Some d) (Some ["b"]) (Some STATE_PAUSED) in
  let d' := <[ATTR_MEDIA_CONTENT_ID := VStr "c"]>
              (<[ATTR_ENTITY_ID := VStr "tv"]> (play_request ["tv"] "c,d")) in
  exists h' p',
    async_play_media (play_request ["tv"] "c,d") (mkHass {["tv" := 0]} [p] []) = (Ok tt, h') /\
    players h' = {["tv" := 0]} /\
    length (objects h') = 1 /\
    (forall l, l <> 0 -> objects h' !! l = [p] !! l) /\
    objects h' !! 0 = Some p' /\
    start_time p' = Float (seconds 1000) /\
    time_left p' = Int 100 /\
    time_past p' = Float (seconds 30) /\
    entity_id p' = Some "tv" /\
    state p' = Some STATE_IDLE /\
    media_ids p' = Some ["d"] /\
    data p' = Some d' /\
    service_calls h' = [] ++ [mkCall MEDIA_PLAYER_DOMAIN SERVICE_PLAY_MEDIA d'].
Proof.
  intros d p d'.
  exact (C4_play_reuses_instance {["tv" := 0]} [p] [] "tv" 0 p (play_request ["tv"] "c,d") "c,d"
           eq_refl eq_refl eq_refl eq_refl).
Defined.

(** C4, as first stated, fails: "tv" is paused 30 seconds into an item of
    100 seconds when a new play request comes.  No instance is created;
    the one registered for "tv" is the same as before and still holds the
    timing of the previous playlist, where a new instance would hold 0. *)
Lemma C4_stale_timing_kept :
  let h := run (async_play_media (play_request ["tv"] "c,d")) paused_tv in
  players h !! "tv" = players paused_tv !! "tv" /\
  length (objects h) = length (objects paused_tv) /\
  (start_time <$> objects h !! 0) = Some (Float (seconds 1000)) /\
  (time_left <$> objects h !! 0) = Some (Int 100) /\
  (time_past <$> objects h !! 0) = Some (Float (seconds 30)) /\
  start_time (__init__ "tv") = Int 0 /\
  time_left (__init__ "tv") = Int 0 /\
  time_past (__init__ "tv") = Int 0 /\
  num_eqb (Float (seconds 1000)) (Int 0) = false /\
  num_eqb (Int 100) (Int 0) = false /\
  num_eqb (Float (seconds 30)) (Int 0) = false.
Proof. vm_compute. repeat split. Qed.

(** What the kept timing can do: in [replayed_tv] the 30 seconds of the
    previous playlist are still in [time_past], so that going idle after
    70 seconds of the new item of 100 seconds counts as its natural end
    and the next item is played. *)
Example stale_time_past_counts :
  let h := run (async_state_changed (state_event "tv" STATE_IDLE (VInt 0) (VInt 0))
                                    (seconds 2070)) replayed_tv in
  players h !! "tv" = Some 0 /\
  map (fun c => call_data c !! ATTR_MEDIA_CONTENT_ID) (service_calls h)
  = [Some (VStr "a"); Some (VStr "c"); Some (VStr "d")].
Proof. vm_compute. split; reflexivity. Qed.

(** ** A whole playlist *)

Lemma split_no_sep (sep : ascii) (w : string) :
  contains sep w = false -> split sep w = [w].
Proof.
  induction w as [|c w IH]; simpl; [reflexivity|].
  intros H. apply orb_false_iff in H as [Hc Hw]. rewrite Hc, (IH Hw). reflexivity.
Qed.

Lemma split_app_sep (sep : ascii) (w s : string) :
  contains sep w = false -> split sep (w ++ String sep s) = w :: split sep s.
Proof.
  induction w as [|c w IH]; simpl.
  - intros _. now rewrite Ascii.eqb_refl.
  - intros H. apply orb_false_iff in H as [Hc Hw]. rewrite Hc, (IH Hw). reflexivity.
Qed.

(** Media ids without a comma come back from the content id they were
    joined into. *)
Lemma split_join (sep : ascii) (ids : list string) :
  ids <> [] ->
  Forall (fun m => contains sep m = false) ids ->
  split sep (join sep ids) = ids.
Proof.
  induction ids as [|w ws IH]; [congruence|]. intros _ H.
  apply Forall_cons in H as [Hw Hws]. destruct ws as [|w' ws].
  - simpl. now apply split_no_sep.
  - change (join sep (w :: w' :: ws)) with (w ++ String sep (join sep (w' :: ws)))%string.
    rewrite (split_app_sep _ _ _ Hw), IH; [reflexivity|discriminate|assumption].
Qed.

(** An event for a registered entity goes to its instance. *)
Lemma handle_event
    (ps : gmap string loc) (objs : list player) (calls : list service_call)
    (e : string) (self : loc) (new_state : State) (now : float) :
  ps !! e = Some self ->
  async_state_changed (mkEvent (Some e) (Some new_state)) now (mkHass ps objs calls)
  = PlaylistPlayer.async_state_changed self new_state now (mkHass ps objs calls).
Proof.
  intros He. unfold async_state_changed. simpl.
  rewrite bind_registry_get. simpl. now rewrite He.
Qed.

Section Round.
Variables (ps : gmap string loc) (objs : list player) (calls : list service_call).
Variables (e : string) (self : loc) (p : player) (r : round) (left past : num).
Hypothesis He : ps !! e = Some self.
Hypothesis Hself : objs !! self = Some p.
Hypothesis Hid : entity_id p = Some e.
Hypothesis Hidle : state p = Some STATE_IDLE.
Hypothesis Hplaying : st_state (rd_playing r) = STATE_PLAYING.
Hypothesis Hgoes_idle : st_state (rd_idle r) = STATE_IDLE.
Hypothesis Hleft : reported_time_left (rd_playing r) = Ok left.
Hypothesis Hpast : elapsed_since (Int 0) (rd_ended r) (Float (rd_started r)) = Ok past.
Hypothesis Htolerance : within_tolerance past left = Ok true.

(** The instance once the item is reported playing, and once it is
    reported idle. *)
Let p1 : player := set_state STATE_PLAYING (PlaylistPlayer.restart (rd_started r) left p).
Let p2 : player := set_time_past past p1.

Lemma round_started :
  async_state_changed (mkEvent (Some e) (Some (rd_playing r))) (rd_started r)
    (mkHass ps objs calls)
  = (Ok tt, mkHass ps (<[self := p1]> objs) calls).
Proof.
  rewrite (handle_event _ _ _ _ _ _ _ He).
  rewrite (to_playing ps objs calls self p STATE_IDLE _ _ Hself Hidle left Hplaying Hleft).
  reflexivity.
Qed.

Lemma round_ended :
  async_state_changed (mkEvent (Some e) (Some (rd_idle r))) (rd_ended r)
    (mkHass ps (<[self := p1]> objs) calls)
  = (PlaylistPlayer.async_media_next_track self ;; update self (set_state STATE_IDLE))
      (mkHass ps (<[self := p2]> objs) calls).
Proof.
  pose proof (fun q => lookup_written objs self p Hself q) as Hw.
  rewrite (handle_event _ _ _ _ _ _ _ He).
  rewrite (playing_to_idle ps _ calls self p1 STATE_PLAYING _ _ (Hw p1) eq_refl past true
             Hgoes_idle eq_refl Hpast Htolerance).
  now rewrite list_insert_insert_eq.
Qed.

(** The item ends and another one is pending: it is popped and played. *)
Lemma round_ended_next (m : string) (rest : list string) (d : gmap string value) :
  media_ids p = Some (m :: rest) -> data p = Some d ->
  async_state_changed (mkEvent (Some e) (Some (rd_idle r))) (rd_ended r)
    (mkHass ps (<[self := p1]> objs) calls)
  = (Ok tt,
     mkHass ps
       (<[self := set_state STATE_IDLE
                    (set_data (<[ATTR_MEDIA_CONTENT_ID := VStr m]> d)
                       (set_media_ids rest p2))]> objs)
       (calls ++ [item_call d m])).
Proof.
  intros Hm Hd.
  pose proof (fun q => lookup_written objs self p Hself q) as Hw.
  rewrite round_ended.
  rewrite (next_then_set_state ps _ calls self p2 STATE_IDLE m rest d (Hw p2) Hm Hd).
  now rewrite list_insert_insert_eq.
Qed.

(** The item ends and none is pending: the playlist is over. *)
Lemma round_ended_last :
  media_ids p = Some [] ->
  async_state_changed (mkEvent (Some e) (Some (rd_idle r))) (rd_ended r)
    (mkHass ps (<[self := p1]> objs) calls)
  = (Ok tt,
     mkHass (delete e ps)
       (<[self := set_state STATE_IDLE (set_entity_id None p2)]> objs)
       calls).
Proof.
  intros Hm.
  pose proof (fun q => lookup_written objs self p Hself q) as Hw.
  rewrite round_ended. unfold bind at 1.
  rewrite (next_track_nil ps _ calls self p2 (Hw p2) Hm).
  pose proof (stop_then_set_state ps _ calls self p2 e STATE_IDLE self (Hw p2) Hid He) as E.
  unfold bind at 1 in E. rewrite E. now rewrite list_insert_insert_eq.
Qed.

End Round.

Lemma item_call_insert (d : gmap string value) (m m' : string) :
  item_call (<[ATTR_MEDIA_CONTENT_ID := VStr m]> d) m' = item_call d m'.
Proof. unfold item_call. now rewrite insert_insert_eq. Qed.

(** The rounds of a playlist in progress: [rest] are the ids still
    pending.  Each round but the last pops and plays the next pending id;
    the round after the last id removes the entity from the registry. *)

(** The rounds of a playlist in progress: [rest] are the ids still
    pending.  Each round but the last pops and plays the next pending id;
    the round after the last id removes the entity from the registry. *)
Lemma play_rounds_run (ps : gmap string loc) (e : string) (self : loc) :
  ps !! e = Some self ->
  forall (rs : list round) (rest : list string) (objs : list player)
         (calls : list service_call) (p : player) (d : gmap string value),
    objs !! self = Some p ->
    entity_id p = Some e -> state p = Some STATE_IDLE ->
    media_ids p = Some rest -> data p = Some d ->
    Forall natural_end rs ->
    length rs <= S (length rest) ->
    exists objs',
      play_rounds e rs (mkHass ps objs calls)
      = (Ok tt,
         mkHass (if decide (length rs = S (length rest)) then delete e ps else ps)
                objs'
                (calls ++ map (item_call d) (take (length rs) rest))).
Proof.
  intros He. induction rs as [|r rs IH]; intros rest objs calls p d Hself Hid Hst Hm Hd Hrs Hlen.
  - exists objs. simpl. now rewrite app_nil_r.
  - apply Forall_cons in Hrs as [Hr Hrs]. simpl in Hlen.
    destruct Hr as (Hp & Hi & left & past & Hleft & Hpast & Htol).
    pose proof (fun q => lookup_written objs self p Hself q) as Hw.
    cbn [play_rounds].
    rewrite (bind_Ok _ _ _ _ _
               (round_started ps objs calls e self p r left He Hself Hst Hp Hleft)).
    destruct rest as [|m rest].
    + destruct rs as [|r' rs]; [|simpl in Hlen; lia].
      rewrite (bind_Ok _ _ _ _ _
                 (round_ended_last ps objs calls e self p r left past He Hself Hid
                    Hi Hpast Htol Hm)).
      eexists. simpl. rewrite app_nil_r. reflexivity.
    + rewrite (bind_Ok _ _ _ _ _
                 (round_ended_next ps objs calls e self p r left past He Hself
                    Hi Hpast Htol m rest d Hm Hd)).
      match goal with |- context [<[self := ?q]> objs] => set (p2 := q) end.
      assert (length rs <= S (length rest)) as Hlen' by (simpl in Hlen; lia).
      destruct (IH rest (<[self := p2]> objs) (calls ++ [item_call d m]) p2
                   (<[ATTR_MEDIA_CONTENT_ID := VStr m]> d)
                   (Hw p2) Hid eq_refl eq_refl eq_refl Hrs Hlen') as [objs' E].
      exists objs'. rewrite E. simpl length. simpl take. rewrite map_cons, <- app_assoc. simpl.
      rewrite (map_ext _ (item_call d) (fun m' => item_call_insert d m m')).
      destruct (decide (length rs = S (length rest))), (decide (S (length rs) = S (S (length rest))));
        first [reflexivity | lia].
Qed.

(** [async_play] on the instance registered for [e], followed by the
    rounds. *)
Lemma play_then_rounds
    (ps : gmap string loc) (objs : list player) (calls : list service_call)
    (e : string) (self : loc) (p : player) (cd : gmap string value)
    (m : string) (rest : list string) (s : string) (rs : list round) :
  ps !! e = Some self -> objs !! self = Some p -> entity_id p = Some e ->
  cd !! ATTR_MEDIA_CONTENT_ID = Some (VStr s) ->
  split "," s = m :: rest ->
  Forall natural_end rs ->
  length rs <= S (length rest) ->
  exists objs',
    (PlaylistPlayer.async_play self cd ;; play_rounds e rs) (mkHass ps objs calls)
    = (Ok tt,
       mkHass (if decide (length rs = S (length rest)) then delete e ps else ps)
              objs'
              (calls ++ map (play_single_item cd e) (take (S (length rs)) (m :: rest)))).
Proof.
  intros He Hself Hid Hc Hs Hrs Hlen.
  rewrite (bind_Ok _ _ _ _ _ (async_play_str ps objs calls self p cd s m rest Hself Hc Hs)).
  rewrite Hid. cbn [PlaylistPlayer.id_value].
  match goal with |- context [<[self := ?q]> objs] => set (p1 := q) end.
  destruct (play_rounds_run ps e self He rs rest (<[self := p1]> objs)
              (calls ++ [item_call (<[ATTR_ENTITY_ID := VStr e]> cd) m]) p1
              (<[ATTR_MEDIA_CONTENT_ID := VStr m]> (<[ATTR_ENTITY_ID := VStr e]> cd))
              (lookup_written _ _ _ Hself p1) eq_refl eq_refl eq_refl eq_refl Hrs Hlen)
    as [objs' E].
  exists objs'. fold (item_call (<[ATTR_ENTITY_ID := VStr e]> cd) m). rewrite E. cbn [take map]. rewrite <- app_assoc. cbn [app].
  rewrite (map_ext _ _ (fun m' => item_call_insert (<[ATTR_ENTITY_ID := VStr e]> cd) m m')).
  reflexivity.
Qed.

(** C1.  A play request for one entity with the non-empty list [ids] of
    media ids (none holding a comma, joined into the content id), followed
    by rounds that each go idle -> playing -> idle with the elapsed time
    within 2 seconds of the reported time left: every handler returns
    normally; with [k] rounds over, the service calls added are those for
    the first [k + 1] ids, one each, in the order of the list; while ids
    are pending the entity stays registered, and with as many rounds as
    ids all of them have been played, once each and in order, and the
    entity is out of the registry. *)
Theorem C1_one_call_per_media_id
    (h : hass) (e : string) (cd : gmap string value) (ids : list string) (rs : list round) :
  wf h ->
  ids <> [] ->
  Forall (fun m => contains "," m = false) ids ->
  cd !! ATTR_ENTITY_ID = Some (VList [e]) ->
  cd !! ATTR_MEDIA_CONTENT_ID = Some (VStr (join "," ids)) ->
  Forall natural_end rs ->
  length rs <= length ids ->
  exists h',
    (async_play_media cd ;; play_rounds e rs) h = (Ok tt, h') /\
    service_calls h'
    = service_calls h ++ map (play_single_item cd e) (take (S (length rs)) ids) /\
    (length rs < length ids -> is_Some (players h' !! e)) /\
    (length rs = length ids ->
     service_calls h' = service_calls h ++ map (play_single_item cd e) ids /\
     players h' !! e = None).
Proof.
  intros Hw Hne Hfree He Hc Hrs Hlen.
  pose proof (split_join "," ids Hne Hfree) as Hs.
  destruct ids as [|m rest]; [congruence|]. simpl in Hlen.
  destruct h as [ps objs calls].
  assert (exists ps1 objs1 self p,
            async_play_media cd (mkHass ps objs calls)
            = PlaylistPlayer.async_play self cd (mkHass ps1 objs1 calls) /\
            ps1 !! e = Some self /\ objs1 !! self = Some p /\ entity_id p = Some e)
    as (ps1 & objs1 & self & p & E & He1 & Hself & Hid).
  { destruct (ps !! e) as [self|] eqn:Hreg.
    - destruct (Hw e self Hreg) as (p & Hp & Hpe).
      exists ps, objs, self, p. split; [|auto].
      now apply async_play_media_registered with (e := e).
    - exists (<[e := length objs]> ps), (objs ++ [__init__ e]), (length objs), (__init__ e).
      split; [now apply async_play_media_new|].
      split; [apply lookup_insert_eq|]. split; [|reflexivity].
      now apply list_lookup_middle. }
  destruct (play_then_rounds ps1 objs1 calls e self p cd m rest _ rs
              He1 Hself Hid Hc Hs Hrs Hlen) as [objs' E'].
  eexists. split.
  { unfold bind in *. rewrite E. exact E'. }
  cbn [service_calls players]. split; [reflexivity|]. split.
  - intros Hlt. simpl in Hlt. destruct (decide (length rs = S (length rest))); [lia|].
    rewrite He1. eauto.
  - intros Heq. simpl in Heq. destruct (decide (length rs = S (length rest))); [|lia].
    split; [|apply lookup_delete_eq].
    rewrite take_ge; [reflexivity|]. simpl. lia.
Qed.

Lemma C1_one_call_per_media_id_witness :
  let cd := play_request ["tv"] "a,b" in
  let rs := [round_of (VInt 100) (seconds 1000) (seconds_and_half 1100);
             round_of (VFloat (seconds 60)) (seconds 1101) (seconds 1160)] in
  exists h',
    (async_play_media cd ;; play_rounds "tv" rs) hass0 = (Ok tt, h') /\
    service_calls h'
    = service_calls hass0 ++ map (play_single_item cd "tv") (take (S (length rs)) ["a"; "b"]) /\
    (length rs < length ["a"; "b"] -> is_Some (players h' !! "tv")) /\
    (length rs = length ["a"; "b"] ->
     service_calls h' = service_calls hass0 ++ map (play_single_item cd "tv") ["a"; "b"] /\
     players h' !! "tv" = None).
Proof.
  intros cd rs.
  apply (C1_one_call_per_media_id hass0 "tv" cd ["a"; "b"] rs).
  - apply wf_handlers.
  - discriminate.
  - apply Forall_cons. split; [reflexivity|].
    apply Forall_cons. split; [reflexivity|]. apply Forall_nil_2.
  - reflexivity.
  - reflexivity.
  - apply Forall_cons. split.
    { split; [reflexivity|]. split; [reflexivity|].
      exists (Int 100), (Float (seconds_and_half 100)).
      split; [|split]; vm_compute; reflexivity. }
    apply Forall_cons. split.
    { split; [reflexivity|]. split; [reflexivity|].
      exists (Float (seconds 60)), (Float (seconds 59)).
      split; [|split]; vm_compute; reflexivity. }
    apply Forall_nil_2.
  - simpl. lia.
Defined.

(** The same run computed: two service calls, for "a" then "b", and an
    empty registry at the end. *)
Example two_items_played :
  let h := run (async_play_media (play_request ["tv"] "a,b") ;;
                play_rounds "tv"
                  [round_of (VInt 100) (seconds 1000) (seconds_and_half 1100);
                   round_of (VFloat (seconds 60)) (seconds 1101) (seconds 1160)]) hass0 in
  map (fun c => (call_data c !! ATTR_ENTITY_ID, call_data c !! ATTR_MEDIA_CONTENT_ID))
      (service_calls h)
  = [(Some (VStr "tv"), Some (VStr "a")); (Some (VStr "tv"), Some (VStr "b"))] /\
  players h = ∅.
Proof. vm_compute. split; reflexivity. Qed.

(** What "within the tolerance" means is decided by the floats: an item
    with 0.5000000000000001 seconds left that goes idle 2.5 seconds after
    it started is not a natural end (the difference rounds to 2.0), and
    the playlist stops after its first item. *)
Example rounded_difference_stops :
  let r := round_of (VFloat (f64 (2 ^ 52 + 1) (-53))) (seconds 1700000000)
                    (seconds_and_half 1700000002) in
  let h := run (async_play_media (play_request ["tv"] "a,b") ;; play_rounds "tv" [r]) hass0 in
  within_tolerance (Float (seconds_and_half 2)) (Float (f64 (2 ^ 52 + 1) (-53))) = Ok false /\
  map (fun c => call_data c !! ATTR_MEDIA_CONTENT_ID) (service_calls h) = [Some (VStr "a")] /\
  players h = ∅.
Proof. vm_compute. repeat split. Qed.

(** ** Beyond the claims: instances that are ready *)

Lemma ready_wf (h : hass) : ready h -> wf h.
Proof.
  intros Hr e l He. destruct (Hr e l He) as (p & Hp & Hid & _). eauto.
Qed.

Lemma ready_hass0 : ready hass0.
Proof. intros e l H. discriminate H. Qed.

Section Ready.
Variables (ps : gmap string loc) (objs : list player) (calls calls' : list service_call).
Variables (self : loc) (p p' : player) (e : string).
Hypothesis Hr : ready (mkHass ps objs calls).
Hypothesis Hself : objs !! self = Some p.
Hypothesis Hid : entity_id p = Some e.

(** The instance of [e] is replaced by one that is ready too. *)
Lemma ready_insert :
  entity_id p' = Some e -> is_Some (data p') -> is_Some (media_ids p') ->
  (exists s, state p' = Some s /\ live_state s = true) ->
  ready (mkHass ps (<[self := p']> objs) calls').
Proof.
  intros H1 H2 H3 H4 e0 l0 H0. simpl in *.
  destruct (Hr e0 l0 H0) as (q & Hq & Hqe & Hq'). simpl in Hq.
  destruct (decide (self = l0)) as [<-|Hne].
  - exists p'. rewrite (lookup_written _ _ _ Hself). split; [reflexivity|].
    split; [congruence|]. auto.
  - exists q. rewrite list_lookup_insert_ne by assumption. auto.
Qed.

(** The entity goes out of the registry; what becomes of its instance
    does not matter any more. *)
Lemma ready_delete :
  ready (mkHass (delete e ps) (<[self := p']> objs) calls').
Proof.
  intros e0 l0 H0. simpl in *. apply lookup_delete_Some in H0 as [Hne H0].
  destruct (Hr e0 l0 H0) as (q & Hq & Hqe & Hq'). simpl in Hq.
  exists q. rewrite list_lookup_insert_ne; [auto|]. intros <-. congruence.
Qed.

End Ready.

(** A new instance, registered and made ready. *)
Lemma ready_new
    (ps : gmap string loc) (objs : list player) (calls calls' : list service_call)
    (e : string) (q p' : player) :
  ready (mkHass ps objs calls) ->
  entity_id p' = Some e -> is_Some (data p') -> is_Some (media_ids p') ->
  (exists s, state p' = Some s /\ live_state s = true) ->
  ready (mkHass (<[e := length objs]> ps) (<[length objs := p']> (objs ++ [q])) calls').
Proof.
  intros Hr H1 H2 H3 H4 e0 l0 H0. simpl in *.
  apply lookup_insert_Some in H0 as [[<- <-]|[Hne H0]].
  - exists p'. split; [|auto]. apply list_lookup_insert_eq. rewrite length_app. simpl. lia.
  - destruct (Hr e0 l0 H0) as (r & Hq & Hqe & Hq'). simpl in Hq.
    pose proof (lookup_lt_Some _ _ _ Hq) as Hlt.
    exists r. rewrite list_lookup_insert_ne by lia. rewrite lookup_app_l by assumption. auto.
Qed.

(** X1.  The registry invariant [wf] is kept by a play request and by a
    state-changed event, whatever they carry and whether the handler
    returns or raises; the handlers never follow a reference that is not
    in the object store. *)
Theorem registry_invariant_kept
    (h : hass) (cd : gmap string value) (ev : event) (now : float) :
  wf h ->
  (wf (run (async_play_media cd) h) /\
   outcome (async_play_media cd) h <> Raise DanglingReference) /\
  (wf (run (async_state_changed ev now) h) /\
   outcome (async_state_changed ev now) h <> Raise DanglingReference).
Proof.
  intros Hw. split.
  - apply keeps_async_play_media, Hw.
  - apply keeps_async_state_changed, Hw.
Qed.

Lemma registry_invariant_kept_witness :
  (wf (run (async_play_media (play_request ["tv"] "a,b")) hass0) /\
   outcome (async_play_media (play_request ["tv"] "a,b")) hass0 <> Raise DanglingReference) /\
  (wf (run (async_state_changed (state_event "tv" STATE_OFF (VInt 0) (VInt 0)) (seconds 5)) hass0) /\
   outcome (async_state_changed (state_event "tv" STATE_OFF (VInt 0) (VInt 0)) (seconds 5)) hass0
   <> Raise DanglingReference).
Proof.
  apply (registry_invariant_kept hass0). intros e l H. discriminate H.
Defined.

(** X2.  A state-changed event for a registered entity whose instance is
    ready, when the arithmetic of its row raises nothing ([ended] being
    what the tolerance test gave, on playing -> idle), returns normally,
    and its effect is the one of the transition table: the entity leaves
    the registry exactly on [Stop], one service call -- for the first
    pending id -- is added exactly on [Advance], no other entry of the
    registry and no other instance is touched. *)
Theorem event_follows_table
    (h : hass) (e : string) (self : loc) (p : player) (new_state : State) (now : float)
    (old : string) (ids : list string) (d : gmap string value) (ended : bool) :
  players h !! e = Some self ->
  objects h !! self = Some p ->
  entity_id p = Some e -> state p = Some old ->
  media_ids p = Some ids -> data p = Some d ->
  (st_state new_state = STATE_PLAYING ->
   exists ntl, reported_time_left new_state = Ok ntl) ->
  (old = STATE_PLAYING -> st_state new_state = STATE_PAUSED ->
   exists t, elapsed_since (time_past p) now (start_time p) = Ok t) ->
  (old = STATE_PLAYING -> st_state new_state = STATE_IDLE ->
   exists t, elapsed_since (time_past p) now (start_time p) = Ok t /\
             within_tolerance t (time_left p) = Ok ended) ->
  let a := classify old (st_state new_state) ended ids in
  exists h',
    async_state_changed (mkEvent (Some e) (Some new_state)) now h = (Ok tt, h') /\
    players h' = (match a with Stop => delete e (players h) | _ => players h end) /\
    service_calls h'
    = (match a with
       | Advance => service_calls h ++ [item_call d (hd EmptyString ids)]
       | _ => service_calls h
       end) /\
    length (objects h') = length (objects h) /\
    forall l, l <> self -> objects h' !! l = objects h !! l.
Proof.
  intros He Hself Hid Hst Hids Hd A1 A2 A3 a. destruct h as [ps objs calls]. simpl in *.
  rewrite (handle_event _ _ _ _ _ _ _ He).
  destruct (transition_effect ps objs calls self p new_state now old e self ids d ended
              Hself Hst Hids Hd Hid He A1 A2 A3) as (p' & E & _).
  fold a in E. rewrite E. eexists. split; [reflexivity|]. simpl.
  split; [reflexivity|]. split; [reflexivity|]. split; [apply length_insert|].
  intros l Hl. now apply list_lookup_insert_ne.
Qed.

Lemma event_follows_table_witness :
  let d : gmap string value := {[ATTR_MEDIA_CONTENT_ID := VStr "a"]} in
  let p := mkPlayer (Some "tv") (Float (seconds 1000)) (Int 100) (Int 0)
                    (Some d) (Some ["b"]) (Some STATE_PLAYING) in
  let h := mkHass {["tv" := 0]} [p] [] in
  exists h',
    async_state_changed (mkEvent (Some "tv") (Some (mkState STATE_IDLE ∅)))
      (seconds_and_half 1100) h
    = (Ok tt, h') /\
    players h' = players h /\
    service_calls h' = service_calls h ++ [item_call d "b"] /\
    length (objects h') = length (objects h) /\
    forall l, l <> 0 -> objects h' !! l = objects h !! l.
Proof.
  intros d p h.
  assert (Hx : players h !! "tv" = Some 0) by reflexivity.
  refine (event_follows_table h "tv" 0 p (mkState STATE_IDLE ∅) (seconds_and_half 1100)
            STATE_PLAYING ["b"] d true Hx eq_refl eq_refl eq_refl eq_refl eq_refl _ _ _).
  - intros H. cbv in H. discriminate H.
  - intros _ H. cbv in H. discriminate H.
  - intros _ _. exists (Float (seconds_and_half 100)). split; vm_compute; reflexivity.
Defined.

(** ** Beyond the claims: play requests *)

Lemma async_play_media_loop (cd : gmap string value) (es : list string) (h : hass) :
  cd !! ATTR_ENTITY_ID = Some (VList es) -> es <> [] ->
  async_play_media cd h = for_each es (play_entity cd) h.
Proof.
  intros He Hne. unfold async_play_media. rewrite He.
  destruct es as [|e es]; [congruence|]. reflexivity.
Qed.

Lemma play_entity_registered
    (ps : gmap string loc) (objs : list player) (calls : list service_call)
    (cd : gmap string value) (e : string) (self : loc) :
  ps !! e = Some self ->
  play_entity cd e (mkHass ps objs calls)
  = PlaylistPlayer.async_play self cd (mkHass ps objs calls).
Proof.
  intros He. unfold play_entity. rewrite bind_registry_get. simpl. rewrite He.
  now rewrite bind_ret.
Qed.

Lemma play_entity_new
    (ps : gmap string loc) (objs : list player) (calls : list service_call)
    (cd : gmap string value) (e : string) :
  ps !! e = None ->
  play_entity cd e (mkHass ps objs calls)
  = PlaylistPlayer.async_play (length objs) cd
      (mkHass (<[e := length objs]> ps) (objs ++ [__init__ e]) calls).
Proof.
  intros He. unfold play_entity. rewrite bind_registry_get. simpl. rewrite He.
  now rewrite bind_new_player.
Qed.

Section PlayRequest.
Variables (cd : gmap string value) (s m : string) (rest : list string).
Hypothesis Hc : cd !! ATTR_MEDIA_CONTENT_ID = Some (VStr s).
Hypothesis Hs : split "," s = m :: rest.

(** One turn of the loop of [async_play_media]. *)
Lemma play_entity_effect (h : hass) (e : string) :
  ready h ->
  exists h' self p',
    play_entity cd e h = (Ok tt, h') /\ ready h' /\
    service_calls h' = service_calls h ++ [play_single_item cd e m] /\
    players h' !! e = Some self /\ objects h' !! self = Some p' /\
    entity_id p' = Some e /\ state p' = Some STATE_IDLE /\ media_ids p' = Some rest /\
    forall e0, e0 <> e ->
      players h' !! e0 = players h !! e0 /\
      forall l0, players h !! e0 = Some l0 -> objects h' !! l0 = objects h !! l0.
Proof.
  intros Hr. destruct h as [ps objs calls].
  destruct (ps !! e) as [self|] eqn:He.
  - destruct (Hr e self He) as (p & Hself & Hid & _). simpl in Hself.
    rewrite (play_entity_registered _ _ _ _ _ _ He).
    rewrite (async_play_str ps objs calls self p cd s m rest Hself Hc Hs).
    rewrite Hid. cbn [PlaylistPlayer.id_value].
    eexists _, self, _. split; [reflexivity|]. split.
    { apply (ready_insert ps objs calls _ self p _ e Hr Hself Hid); simpl; eauto. }
    simpl. split; [reflexivity|]. split; [exact He|].
    split; [eapply lookup_written, Hself|]. do 3 (split; [reflexivity|]).
    intros e1 Hne. split; [reflexivity|]. intros l1 H0.
    apply list_lookup_insert_ne. intros <-.
    destruct (Hr e1 self H0) as (q & Hq & Hqe & _). simpl in Hq. congruence.
  - rewrite (play_entity_new _ _ _ _ _ He).
    assert ((objs ++ [__init__ e]) !! length objs = Some (__init__ e)) as Hself
      by now apply list_lookup_middle.
    rewrite (async_play_str _ _ calls _ _ cd s m rest Hself Hc Hs).
    cbn [entity_id __init__ PlaylistPlayer.id_value start_time time_left time_past].
    eexists _, (length objs), _. split; [reflexivity|]. split.
    { apply (ready_new ps objs calls _ e); simpl; eauto. }
    simpl. split; [reflexivity|]. split; [apply lookup_insert_eq|].
    split; [eapply lookup_written, Hself|]. do 3 (split; [reflexivity|]).
    intros e1 Hne. split; [now apply lookup_insert_ne|]. intros l1 H0.
    destruct (Hr e1 l1 H0) as (q & Hq & _). simpl in Hq.
    pose proof (lookup_lt_Some _ _ _ Hq) as Hlt.
    rewrite list_lookup_insert_ne by lia. now apply lookup_app_l.
Qed.

(** The whole loop. *)
Lemma play_each (es : list string) :
  forall h, ready h ->
  exists h',
    for_each es (play_entity cd) h = (Ok tt, h') /\ ready h' /\
    service_calls h' = service_calls h ++ map (fun e => play_single_item cd e m) es /\
    (forall e, e ∈ es ->
       exists self p', players h' !! e = Some self /\ objects h' !! self = Some p' /\
                       entity_id p' = Some e /\ state p' = Some STATE_IDLE /\
                       media_ids p' = Some rest) /\
    (forall e0, e0 ∉ es ->
       players h' !! e0 = players h !! e0 /\
       forall l0, players h !! e0 = Some l0 -> objects h' !! l0 = objects h !! l0).
Proof.
  induction es as [|e es IH]; intros h Hr.
  - exists h. split; [reflexivity|]. split; [assumption|]. simpl. rewrite app_nil_r.
    split; [reflexivity|]. split; [|auto]. intros e He. inversion He.
  - destruct (play_entity_effect h e Hr)
      as (h1 & self & p1 & E1 & Hr1 & Hc1 & He1 & Hp1 & Hid1 & Hst1 & Hm1 & Hf1).
    destruct (IH h1 Hr1) as (h' & E & Hr' & Hc' & Hin & Hout).
    exists h'. cbn [for_each]. rewrite (bind_Ok _ _ _ _ _ E1).
    split; [exact E|]. split; [exact Hr'|]. split.
    { rewrite Hc', Hc1, <- app_assoc. reflexivity. }
    split.
    + intros e0 H0. destruct (decide (e0 ∈ es)) as [Hes|Hes]; [now apply Hin|].
      apply elem_of_cons in H0 as [->|H0]; [|contradiction].
      destruct (Hout e Hes) as [Hk Hobj].
      exists self, p1. rewrite Hk, (Hobj self He1). auto.
    + intros e0 H0. apply not_elem_of_cons in H0 as [Hne Hes].
      destruct (Hout e0 Hes) as [Hk Hobj]. destruct (Hf1 e0 Hne) as [Hk1 Hobj1].
      split; [congruence|]. intros l0 Hl0.
      rewrite Hobj by congruence. now apply Hobj1.
Qed.

End PlayRequest.

Lemma ready_two_players : ready two_players.
Proof.
  destruct (play_each (play_request ["tv"; "radio"] "a,b") "a,b" "a" ["b"]
              eq_refl eq_refl ["tv"; "radio"] hass0 ready_hass0) as (h' & E & Hr & _).
  unfold two_players, run.
  rewrite (async_play_media_loop _ ["tv"; "radio"]); [|reflexivity|discriminate].
  now rewrite E.
Qed.


(** X4.  A play request with a non-empty list of entity ids and a string
    as content id, on a state where the registered instances are ready,
    returns normally: it adds one service call per entity id, in the order
    of the list, each for the first media id; afterwards every entity of
    the list is registered with an idle instance that holds the remaining
    media ids, and all registered instances are ready. *)
Theorem play_request_every_entity
    (h : hass) (cd : gmap string value) (es : list string) (s : string) :
  ready h ->
  cd !! ATTR_ENTITY_ID = Some (VList es) -> es <> [] ->
  cd !! ATTR_MEDIA_CONTENT_ID = Some (VStr s) ->
  exists h',
    async_play_media cd h = (Ok tt, h') /\ ready h' /\
    service_calls h'
    = service_calls h
      ++ map (fun e => play_single_item cd e (hd EmptyString (split "," s))) es /\
    forall e, e ∈ es ->
      exists self p', players h' !! e = Some self /\ objects h' !! self = Some p' /\
                      entity_id p' = Some e /\ state p' = Some STATE_IDLE /\
                      media_ids p' = Some (tl (split "," s)).
Proof.
  intros Hr He Hne Hc. destruct (split_cons "," s) as (m & rest & Hs).
  destruct (play_each cd s m rest Hc Hs es h Hr) as (h' & E & Hr' & Hc' & Hin & _).
  exists h'. rewrite (async_play_media_loop cd es h He Hne), Hs.
  split; [exact E|]. split; [exact Hr'|]. split; [exact Hc'|exact Hin].
Qed.

Lemma play_request_every_entity_witness :
  let cd := play_request ["radio"; "tv"] "c,d" in
  exists h',
    async_play_media cd two_players = (Ok tt, h') /\ ready h' /\
    service_calls h'
    = service_calls two_players
      ++ map (fun e => play_single_item cd e (hd EmptyString (split "," "c,d")))
             ["radio"; "tv"] /\
    forall e, e ∈ ["radio"; "tv"] ->
      exists self p', players h' !! e = Some self /\ objects h' !! self = Some p' /\
                      entity_id p' = Some e /\ state p' = Some STATE_IDLE /\
                      media_ids p' = Some (tl (split "," "c,d")).
Proof.
  intros cd.
  apply (play_request_every_entity two_players cd ["radio"; "tv"] "c,d").
  - apply ready_two_players.
  - reflexivity.
  - discriminate.
  - reflexivity.
Defined.

(** X5.  A play request leaves alone every entity that is not in its
    list: the entry of such an entity in the registry is the same
    afterwards, and so is the instance it refers to. *)
Theorem play_request_frame
    (h : hass) (cd : gmap string value) (es : list string) (s e0 : string) :
  ready h ->
  cd !! ATTR_ENTITY_ID = Some (VList es) -> es <> [] ->
  cd !! ATTR_MEDIA_CONTENT_ID = Some (VStr s) ->
  e0 ∉ es ->
  players (run (async_play_media cd) h) !! e0 = players h !! e0 /\
  forall l0, players h !! e0 = Some l0 ->
             objects (run (async_play_media cd) h) !! l0 = objects h !! l0.
Proof.
  intros Hr He Hne Hc H0. destruct (split_cons "," s) as (m & rest & Hs).
  destruct (play_each cd s m rest Hc Hs es h Hr) as (h' & E & _ & _ & _ & Hout).
  unfold run. rewrite (async_play_media_loop cd es h He Hne), E. now apply Hout.
Qed.

Lemma play_request_frame_witness :
  let cd := play_request ["radio"] "c,d" in
  players (run (async_play_media cd) two_players) !! "tv" = players two_players !! "tv" /\
  forall l0, players two_players !! "tv" = Some l0 ->
             objects (run (async_play_media cd) two_players) !! l0
             = objects two_players !! l0.
Proof.
  intros cd. apply (play_request_frame two_players cd ["radio"] "c,d" "tv").
  - apply ready_two_players.
  - reflexivity.
  - discriminate.
  - reflexivity.
  - intros H. apply list_elem_of_singleton in H. discriminate H.
Defined.

(** X6.  The first play request for an entity creates its instance: a new
    object is added at the end of the store, with the timing fields at 0,
    idle, holding the media ids after the first, and is registered under
    the entity id; the first media id is played; the instances that were
    there are not touched. *)
Theorem first_play_creates_instance
    (ps : gmap string loc) (objs : list player) (calls : list service_call)
    (cd : gmap string value) (e s : string) :
  cd !! ATTR_ENTITY_ID = Some (VList [e]) ->
  cd !! ATTR_MEDIA_CONTENT_ID = Some (VStr s) ->
  ps !! e = None ->
  let m := hd EmptyString (split "," s) in
  async_play_media cd (mkHass ps objs calls)
  = (Ok tt,
     mkHass (<[e := length objs]> ps)
            (objs ++ [mkPlayer (Some e) (Int 0) (Int 0) (Int 0)
                               (Some (call_data (play_single_item cd e m)))
                               (Some (tl (split "," s))) (Some STATE_IDLE)])
            (calls ++ [play_single_item cd e m])).
Proof.
  intros He Hc Hreg m. destruct (split_cons "," s) as (m' & rest & Hs).
  subst m. rewrite Hs. cbn [hd tl].
  rewrite (async_play_media_new ps objs calls e cd He Hreg).
  assert ((objs ++ [__init__ e]) !! length objs = Some (__init__ e)) as Hself
    by now apply list_lookup_middle.
  rewrite (async_play_str _ _ calls _ _ cd s m' rest Hself Hc Hs).
  rewrite insert_app_r_alt by lia. rewrite Nat.sub_diag. reflexivity.
Qed.

Lemma first_play_creates_instance_witness :
  let cd := play_request ["tv"] "a,b" in
  async_play_media cd (mkHass ∅ [] [])
  = (Ok tt,
     mkHass (<["tv" := 0]> ∅)
            ([] ++ [mkPlayer (Some "tv") (Int 0) (Int 0) (Int 0)
                             (Some (call_data (play_single_item cd "tv" "a")))
                             (Some ["b"]) (Some STATE_IDLE)])
            ([] ++ [play_single_item cd "tv" "a"])).
Proof.
  intros cd.
  exact (first_play_creates_instance ∅ [] [] cd "tv" "a,b" eq_refl eq_refl eq_refl).
Defined.

(** X7.  Every service call that a play request adds is a call of the
    media player's play service that carries the data of the request with
    two keys replaced: the entity id is one entity of the list, as a
    single id, and the content id is the first media id.  Every other key
    of the request is passed on as it came. *)
Theorem play_request_forwards_options
    (h : hass) (cd : gmap string value) (es : list string) (s : string) (c : service_call) :
  ready h ->
  cd !! ATTR_ENTITY_ID = Some (VList es) -> es <> [] ->
  cd !! ATTR_MEDIA_CONTENT_ID = Some (VStr s) ->
  c ∈ drop (length (service_calls h)) (service_calls (run (async_play_media cd) h)) ->
  call_domain c = MEDIA_PLAYER_DOMAIN /\ call_service c = SERVICE_PLAY_MEDIA /\
  (exists e, e ∈ es /\ call_data c !! ATTR_ENTITY_ID = Some (VStr e)) /\
  call_data c !! ATTR_MEDIA_CONTENT_ID = Some (VStr (hd EmptyString (split "," s))) /\
  forall k, k <> ATTR_ENTITY_ID -> k <> ATTR_MEDIA_CONTENT_ID ->
            call_data c !! k = cd !! k.
Proof.
  intros Hr He Hne Hc Hin. destruct (split_cons "," s) as (m & rest & Hs).
  destruct (play_each cd s m rest Hc Hs es h Hr) as (h' & E & _ & Hc' & _).
  unfold run in Hin. rewrite (async_play_media_loop cd es h He Hne), E in Hin.
  simpl in Hin. rewrite Hc', drop_app_length in Hin.
  apply list_elem_of_In, in_map_iff in Hin as (e & <- & Hes).
  apply list_elem_of_In in Hes. rewrite Hs. cbn [hd].
  unfold play_single_item, item_call. cbn [call_domain call_service call_data].
  split; [reflexivity|]. split; [reflexivity|]. split.
  { exists e. split; [assumption|].
    rewrite lookup_insert_ne by discriminate. apply lookup_insert_eq. }
  split; [apply lookup_insert_eq|].
  intros k K1 K2. rewrite lookup_insert_ne by congruence.
  now rewrite lookup_insert_ne by congruence.
Qed.

Lemma play_request_forwards_options_witness :
  let cd := <["media_content_type" := VStr "video"]> (play_request ["tv"] "a,b") in
  let c := play_single_item cd "tv" "a" in
  call_domain c = MEDIA_PLAYER_DOMAIN /\ call_service c = SERVICE_PLAY_MEDIA /\
  (exists e, e ∈ ["tv"] /\ call_data c !! ATTR_ENTITY_ID = Some (VStr e)) /\
  call_data c !! ATTR_MEDIA_CONTENT_ID = Some (VStr (hd EmptyString (split "," "a,b"))) /\
  forall k, k <> ATTR_ENTITY_ID -> k <> ATTR_MEDIA_CONTENT_ID ->
            call_data c !! k = cd !! k.
Proof.
  intros cd c.
  apply (play_request_forwards_options hass0 cd ["tv"] "a,b" c).
  - apply ready_hass0.
  - reflexivity.
  - discriminate.
  - reflexivity.
  - assert (service_calls (run (async_play_media cd) hass0) = [c]) as E
      by (vm_compute; reflexivity).
    rewrite E. apply list_elem_of_singleton. reflexivity.
Defined.


(** ** Beyond the claims: single events *)

(** X8.  A state-changed event without a new state (the entity was
    removed) for a registered entity makes the handler raise
    [AttributeError]; nothing is changed, the entity stays registered. *)
Theorem event_without_new_state_raises (h : hass) (e : string) (self : loc) (now : float) :
  wf h -> players h !! e = Some self ->
  async_state_changed (mkEvent (Some e) None) now h = (Raise AttributeError, h).
Proof.
  intros Hw He. destruct (Hw e self He) as (p & Hself & _).
  destruct h as [ps objs calls]. simpl in *.
  unfold async_state_changed. simpl. rewrite bind_registry_get. simpl. rewrite He.
  destruct (state p) as [s|] eqn:Hst.
  - now rewrite (bind_getattr ps objs calls self p state s _ Hself Hst).
  - apply bind_Raise. now apply getattr_missing with (p := p).
Qed.

Lemma event_without_new_state_raises_witness :
  async_state_changed (mkEvent (Some "tv") None) (seconds 1010) two_players
  = (Raise AttributeError, two_players).
Proof.
  apply (event_without_new_state_raises two_players "tv" 0).
  - apply ready_wf, ready_two_players.
  - vm_compute. reflexivity.
Defined.

Lemma set_state_same (p : player) (s : string) : state p = Some s -> set_state s p = p.
Proof. destruct p. simpl. now intros ->. Qed.

(** X9.  A playing instance that is reported playing again, with a
    duration and a position that can be subtracted: when the difference
    compares equal ([==] of Python) to the stored [time_left] (a repeated
    notification) nothing at all changes; when it compares different, the
    timing starts anew -- [start_time] is the current time, [time_left]
    the difference, [time_past] 0 -- and nothing else changes.  When the
    subtraction raises, the handler raises the same and nothing
    changes. *)
Theorem playing_again
    (h : hass) (e : string) (self : loc) (p : player) (new_state : State) (now : float) :
  players h !! e = Some self ->
  objects h !! self = Some p ->
  state p = Some STATE_PLAYING ->
  st_state new_state = STATE_PLAYING ->
  (forall ntl, reported_time_left new_state = Ok ntl ->
   (num_eqb ntl (time_left p) = true ->
    async_state_changed (mkEvent (Some e) (Some new_state)) now h = (Ok tt, h)) /\
   (num_eqb ntl (time_left p) = false ->
    async_state_changed (mkEvent (Some e) (Some new_state)) now h
    = (Ok tt,
       mkHass (players h)
              (<[self := PlaylistPlayer.restart now ntl p]> (objects h))
              (service_calls h)))) /\
  (forall ex, reported_time_left new_state = Raise ex ->
   async_state_changed (mkEvent (Some e) (Some new_state)) now h = (Raise ex, h)).
Proof.
  intros He Hself Hst Hn. destruct h as [ps objs calls]. simpl in *.
  rewrite (handle_event _ _ _ _ _ _ _ He). split.
  - intros ntl Ht.
    rewrite (to_playing ps objs calls self p STATE_PLAYING new_state now Hself Hst ntl Hn Ht).
    change (String.eqb STATE_PLAYING STATE_IDLE) with false.
    change (String.eqb STATE_PLAYING STATE_PAUSED) with false.
    rewrite orb_false_l. split; intros Hq; rewrite Hq; cbn [negb].
    + rewrite (set_state_same p _ Hst), (list_insert_id _ _ _ Hself). reflexivity.
    + rewrite set_state_same; [reflexivity|exact Hst].
  - intros ex Ht.
    exact (to_playing_raises ps objs calls self p STATE_PLAYING new_state now Hself Hst ex Hn Ht).
Qed.

Lemma playing_again_witness :
  async_state_changed
    (mkEvent (Some "tv") (Some (mkState STATE_PLAYING {[ATTR_MEDIA_DURATION := VInt 100]})))
    (seconds 1001) playing_tv
  = (Ok tt, playing_tv).
Proof.
  assert (Hx : players playing_tv !! "tv" = Some 0) by (vm_compute; reflexivity).
  assert (Hp : objects playing_tv !! 0
               = Some (mkPlayer (Some "tv") (Float (seconds 1000)) (Int 100) (Int 0)
                         (Some (call_data (play_single_item (play_request ["tv"] "a,b") "tv" "a")))
                         (Some ["b"]) (Some STATE_PLAYING)))
    by (vm_compute; reflexivity).
  refine (proj1 (proj1 (playing_again playing_tv "tv" 0 _
                          (mkState STATE_PLAYING {[ATTR_MEDIA_DURATION := VInt 100]})
                          (seconds 1001) Hx Hp eq_refl eq_refl) (Int 100) _) _).
  - vm_compute. reflexivity.
  - vm_compute. reflexivity.
Defined.

(** X10.  An idle instance that is reported idle again (still loading):
    nothing at all changes. *)
Theorem idle_again
    (h : hass) (e : string) (self : loc) (p : player) (new_state : State) (now : float) :
  players h !! e = Some self ->
  objects h !! self = Some p ->
  state p = Some STATE_IDLE ->
  st_state new_state = STATE_IDLE ->
  async_state_changed (mkEvent (Some e) (Some new_state)) now h = (Ok tt, h).
Proof.
  intros He Hself Hst Hn. destruct h as [ps objs calls]. simpl in *.
  rewrite (handle_event _ _ _ _ _ _ _ He).
  rewrite (other_to_idle ps objs calls self p STATE_IDLE new_state now Hself Hst Hn);
    [|discriminate..].
  rewrite (set_state_same p _ Hst), (list_insert_id _ _ _ Hself). reflexivity.
Qed.

Lemma idle_again_witness :
  async_state_changed (state_event "tv" STATE_IDLE (VInt 0) (VInt 0)) (seconds 1) two_players
  = (Ok tt, two_players).
Proof.
  assert (Hx : players two_players !! "tv" = Some 0) by (vm_compute; reflexivity).
  assert (Hp : objects two_players !! 0
               = Some (mkPlayer (Some "tv") (Int 0) (Int 0) (Int 0)
                         (Some (call_data (play_single_item (play_request ["tv"; "radio"] "a,b")
                                             "tv" "a")))
                         (Some ["b"]) (Some STATE_IDLE)))
    by (vm_compute; reflexivity).
  exact (idle_again two_players "tv" 0 _ (mkState STATE_IDLE
           (<[ATTR_MEDIA_DURATION := VInt 0]> (<[ATTR_MEDIA_POSITION := VInt 0]> ∅)))
           (seconds 1) Hx Hp eq_refl eq_refl).
Defined.

(** The sum the handler stores on a pause, for a clock reading taken as
    start: what the floats give, with nothing or with a float accumulated
    before. *)
Lemma elapsed_floats (tp now start : float) :
  elapsed_since (Float tp) now (Float start) = Ok (Float (fadd tp (fsub now start))).
Proof. reflexivity. Qed.

(** X11.  An instance reported paused: coming from playing, the time
    played since [start_time] is added to [time_past] -- in floats, for a
    start time read off the clock: [time_past + (now - start_time)] with
    each operation rounded -- and if that sum raises, the handler raises
    the same and changes nothing; coming from any other state (idle or
    paused, which the code logs as strange) the timing is untouched.
    When the handler returns, [state] is paused and the registry, the
    pending ids and the service calls are as they were. *)
Theorem to_paused_accumulates
    (h : hass) (e : string) (self : loc) (p : player) (new_state : State) (now : float)
    (old : string) :
  players h !! e = Some self ->
  objects h !! self = Some p ->
  state p = Some old ->
  st_state new_state = STATE_PAUSED ->
  (old = STATE_PLAYING ->
   (forall t, elapsed_since (time_past p) now (start_time p) = Ok t ->
    async_state_changed (mkEvent (Some e) (Some new_state)) now h
    = (Ok tt,
       mkHass (players h)
              (<[self := mkPlayer (entity_id p) (start_time p) (time_left p) t
                           (data p) (media_ids p) (Some STATE_PAUSED)]> (objects h))
              (service_calls h))) /\
   (forall ex, elapsed_since (time_past p) now (start_time p) = Raise ex ->
    async_state_changed (mkEvent (Some e) (Some new_state)) now h = (Raise ex, h)) /\
   (forall start, start_time p = Float start ->
    (time_past p = Int 0 ->
     elapsed_since (time_past p) now (start_time p)
     = Ok (Float (fadd (S754_zero false) (fsub now start)))) /\
    (forall tp, time_past p = Float tp ->
     elapsed_since (time_past p) now (start_time p)
     = Ok (Float (fadd tp (fsub now start)))))) /\
  (old <> STATE_PLAYING ->
   async_state_changed (mkEvent (Some e) (Some new_state)) now h
   = (Ok tt,
      mkHass (players h)
             (<[self := mkPlayer (entity_id p) (start_time p) (time_left p) (time_past p)
                          (data p) (media_ids p) (Some STATE_PAUSED)]> (objects h))
             (service_calls h))).
Proof.
  intros He Hself Hst Hn. destruct h as [ps objs calls]. simpl in *.
  rewrite (handle_event _ _ _ _ _ _ _ He). split.
  - intros Ho. split; [|split].
    + intros t Ht.
      now rewrite (playing_to_paused ps objs calls self p old new_state now Hself Hst t Hn Ho Ht).
    + intros ex Ht.
      exact (playing_to_paused_raises ps objs calls self p old new_state now Hself Hst ex
               Hn Ho Ht).
    + intros start Hs. rewrite Hs. split.
      * intros ->. apply elapsed_from_zero.
      * intros tp ->. apply elapsed_floats.
  - intros Ho.
    now rewrite (other_to_paused ps objs calls self p old new_state now Hself Hst Hn Ho).
Qed.

Lemma to_paused_accumulates_witness :
  let p := mkPlayer (Some "tv") (Float (seconds 1000)) (Int 100) (Int 0)
             (Some (call_data (play_single_item (play_request ["tv"] "a,b") "tv" "a")))
             (Some ["b"]) (Some STATE_PLAYING) in
  objects playing_tv !! 0 = Some p /\
  async_state_changed (state_event "tv" STATE_PAUSED (VInt 100) (VInt 30)) (seconds 1030)
    playing_tv
  = (Ok tt,
     mkHass (players playing_tv)
            (<[0 := mkPlayer (entity_id p) (start_time p) (time_left p) (Float (seconds 30))
                      (data p) (media_ids p) (Some STATE_PAUSED)]> (objects playing_tv))
            (service_calls playing_tv)).
Proof.
  intros p.
  assert (Hx : players playing_tv !! "tv" = Some 0) by (vm_compute; reflexivity).
  assert (Hp : objects playing_tv !! 0 = Some p) by (vm_compute; reflexivity).
  split; [exact Hp|].
  refine (proj1 (proj1 (to_paused_accumulates playing_tv "tv" 0 p (mkState STATE_PAUSED
           (<[ATTR_MEDIA_DURATION := VInt 100]> (<[ATTR_MEDIA_POSITION := VInt 30]> ∅)))
           (seconds 1030) STATE_PLAYING Hx Hp eq_refl eq_refl) eq_refl)
           (Float (seconds 30)) _).
  vm_compute. reflexivity.
Defined.

(** ** Beyond the claims: sequences of events *)

(** X12.  Pause and resume: a playing instance is reported paused at
    [t1], playing again at [t2] with a [duration - position] that compares
    equal to the one stored, and idle at [t3].  When the sums of the
    handler raise nothing, all three events are handled normally, and the
    end of the item is judged on [tp2], the time played before the pause
    ([tp1], stored at [t1]) plus the time played after it ([t3 - t2]) --
    the pause itself does not count: when the tolerance test holds the
    next pending id is played (or, with none pending, the playlist ends),
    when it fails the playlist ends. *)
Theorem pause_resume_accumulates
    (h : hass) (e : string) (self : loc) (p : player)
    (paused resumed ended : State) (t1 t2 t3 : float)
    (ids : list string) (d : gmap string value)
    (ntl tp1 tp2 : num) (natural : bool) :
  players h !! e = Some self ->
  objects h !! self = Some p ->
  entity_id p = Some e -> state p = Some STATE_PLAYING ->
  media_ids p = Some ids -> data p = Some d ->
  st_state paused = STATE_PAUSED ->
  st_state resumed = STATE_PLAYING ->
  st_state ended = STATE_IDLE ->
  elapsed_since (time_past p) t1 (start_time p) = Ok tp1 ->
  reported_time_left resumed = Ok ntl ->
  num_eqb ntl (time_left p) = true ->
  elapsed_since tp1 t3 (Float t2) = Ok tp2 ->
  within_tolerance tp2 (time_left p) = Ok natural ->
  exists h',
    deliver e [(Some paused, t1); (Some resumed, t2); (Some ended, t3)] h = (Ok tt, h') /\
    (natural = true ->
     (forall m rest, ids = m :: rest ->
        service_calls h' = service_calls h ++ [item_call d m] /\
        players h' = players h) /\
     (ids = [] ->
        service_calls h' = service_calls h /\ players h' = delete e (players h))) /\
    (natural = false ->
     service_calls h' = service_calls h /\ players h' = delete e (players h)).
Proof.
  intros He Hself Hid Hst Hids Hd Hn1 Hn2 Hn3 Ht1 Hntl Hq Ht3 Hv.
  destruct h as [ps objs calls]. simpl in *.
  pose proof (fun q => lookup_written objs self p Hself q) as Hw.
  set (p1 := set_state STATE_PAUSED (set_time_past tp1 p)).
  set (p2 := set_state STATE_PLAYING (set_start_time (Float t2) p1)).
  assert (async_state_changed (mkEvent (Some e) (Some paused)) t1 (mkHass ps objs calls)
          = (Ok tt, mkHass ps (<[self := p1]> objs) calls)) as E1.
  { rewrite (handle_event _ _ _ _ _ _ _ He).
    now rewrite (playing_to_paused ps objs calls self p STATE_PLAYING paused t1 Hself Hst
                   tp1 Hn1 eq_refl Ht1). }
  assert (async_state_changed (mkEvent (Some e) (Some resumed)) t2
            (mkHass ps (<[self := p1]> objs) calls)
          = (Ok tt, mkHass ps (<[self := p2]> objs) calls)) as E2.
  { rewrite (handle_event _ _ _ _ _ _ _ He).
    rewrite (to_playing ps _ calls self p1 STATE_PAUSED resumed t2 (Hw p1) eq_refl ntl Hn2 Hntl).
    change (time_left p1) with (time_left p).
    rewrite Hq, list_insert_insert_eq. reflexivity. }
  destruct (transition_effect ps (<[self := p2]> objs) calls self p2 ended t3
              STATE_PLAYING e self ids d natural (Hw p2) eq_refl Hids Hd Hid He)
    as (p' & E3 & _).
  { intros H. rewrite Hn3 in H. cbv in H. discriminate H. }
  { intros _ H. rewrite Hn3 in H. cbv in H. discriminate H. }
  { intros _ _. exists tp2. split; [exact Ht3|exact Hv]. }
  rewrite <- (handle_event _ _ _ e _ _ _ He) in E3.
  rewrite Hn3 in E3. unfold classify in E3.
  change (String.eqb STATE_IDLE STATE_PLAYING) with false in E3.
  change (String.eqb STATE_IDLE STATE_PAUSED) with false in E3.
  change (String.eqb STATE_IDLE STATE_IDLE) with true in E3.
  change (String.eqb STATE_PLAYING STATE_PLAYING) with true in E3.
  cbv iota in E3.
  eexists. split.
  { cbn [deliver for_each fst snd].
    rewrite (bind_Ok _ _ _ _ _ E1), (bind_Ok _ _ _ _ _ E2), (bind_Ok _ _ _ _ _ E3).
    reflexivity. }
  cbn [service_calls players]. split.
  - intros ->. split.
    + intros m rest ->. split; reflexivity.
    + intros ->. split; reflexivity.
  - intros ->. split; reflexivity.
Qed.

Lemma pause_resume_accumulates_witness :
  let d := call_data (play_single_item (play_request ["tv"] "a,b") "tv" "a") in
  exists h',
    deliver "tv" [(Some (mkState STATE_PAUSED ∅), seconds 1030);
                  (Some (mkState STATE_PLAYING {[ATTR_MEDIA_DURATION := VInt 100]}),
                   seconds 1040);
                  (Some (mkState STATE_IDLE ∅), seconds_and_half 1110)] playing_tv
    = (Ok tt, h') /\
    (true = true ->
     (forall m rest, ["b"] = m :: rest ->
        service_calls h' = service_calls playing_tv ++ [item_call d m] /\
        players h' = players playing_tv) /\
     (["b"] = [] ->
        service_calls h' = service_calls playing_tv /\
        players h' = delete "tv" (players playing_tv))) /\
    (true = false ->
     service_calls h' = service_calls playing_tv /\
     players h' = delete "tv" (players playing_tv)).
Proof.
  intros d.
  apply (pause_resume_accumulates playing_tv "tv" 0
           (mkPlayer (Some "tv") (Float (seconds 1000)) (Int 100) (Int 0)
                     (Some d) (Some ["b"]) (Some STATE_PLAYING))
           (mkState STATE_PAUSED ∅)
           (mkState STATE_PLAYING {[ATTR_MEDIA_DURATION := VInt 100]})
           (mkState STATE_IDLE ∅) (seconds 1030) (seconds 1040) (seconds_and_half 1110)
           ["b"] d (Int 100) (Float (seconds 30)) (Float (seconds_and_half 100)) true).
  - vm_compute. reflexivity.
  - vm_compute. reflexivity.
  - reflexivity.
  - reflexivity.
  - reflexivity.
  - reflexivity.
  - reflexivity.
  - reflexivity.
  - reflexivity.
  - vm_compute. reflexivity.
  - vm_compute. reflexivity.
  - vm_compute. reflexivity.
  - vm_compute. reflexivity.
  - vm_compute. reflexivity.
Defined.

Lemma deliver_unregistered (e : string) (evs : list (option State * float)) (h : hass) :
  players h !! e = None -> deliver e evs h = (Ok tt, h).
Proof.
  intros He. induction evs as [|[ns t] evs IH]; [reflexivity|].
  unfold deliver in *. cbn [for_each fst snd].
  assert (async_state_changed (mkEvent (Some e) ns) t h = (Ok tt, h)) as E.
  { unfold async_state_changed. simpl. now rewrite bind_registry_get, He. }
  now rewrite (bind_Ok _ _ _ _ _ E).
Qed.


(** X13.  A playlist that is interrupted does not come back: when a
    playing instance goes idle and the tolerance test on the accumulated
    time fails, the entity leaves the registry without a service call,
    and whatever state-changed events follow for that entity are handled
    normally and change nothing -- the pending ids are never played. *)
Theorem interrupted_playlist_ends
    (h : hass) (e : string) (self : loc) (p : player) (new_state : State) (now : float)
    (evs : list (option State * float)) (t : num) :
  players h !! e = Some self ->
  objects h !! self = Some p ->
  entity_id p = Some e -> state p = Some STATE_PLAYING ->
  st_state new_state = STATE_IDLE ->
  elapsed_since (time_past p) now (start_time p) = Ok t ->
  within_tolerance t (time_left p) = Ok false ->
  exists h',
    deliver e ((Some new_state, now) :: evs) h = (Ok tt, h') /\
    players h' = delete e (players h) /\
    service_calls h' = service_calls h.
Proof.
  intros He Hself Hid Hst Hn Ht Hout. destruct h as [ps objs calls]. simpl in *.
  pose proof (fun q => lookup_written objs self p Hself q) as Hw.
  set (p1 := set_time_past t p).
  assert (async_state_changed (mkEvent (Some e) (Some new_state)) now (mkHass ps objs calls)
          = (Ok tt,
             mkHass (delete e ps)
                    (<[self := set_state STATE_IDLE (set_entity_id None p1)]> objs) calls))
    as E.
  { rewrite (handle_event _ _ _ _ _ _ _ He).
    rewrite (playing_to_idle ps objs calls self p STATE_PLAYING new_state now
               Hself Hst t false Hn eq_refl Ht Hout).
    fold p1.
    rewrite (stop_then_set_state ps _ calls self p1 e STATE_IDLE self (Hw p1) Hid He).
    now rewrite list_insert_insert_eq. }
  eexists. split.
  { change (deliver e ((Some new_state, now) :: evs))
      with (async_state_changed (mkEvent (Some e) (Some new_state)) now ;; deliver e evs).
    rewrite (bind_Ok _ _ _ _ _ E).
    apply deliver_unregistered. apply lookup_delete_eq. }
  split; reflexivity.
Qed.

Lemma interrupted_playlist_ends_witness :
  exists h',
    deliver "tv" [(Some (mkState STATE_IDLE ∅), seconds 1050);
                  (Some (mkState STATE_PLAYING ∅), seconds 1060);
                  (Some (mkState STATE_IDLE ∅), seconds 1160)] playing_tv = (Ok tt, h') /\
    players h' = delete "tv" (players playing_tv) /\
    service_calls h' = service_calls playing_tv.
Proof.
  apply (interrupted_playlist_ends playing_tv "tv" 0
           (mkPlayer (Some "tv") (Float (seconds 1000)) (Int 100) (Int 0)
                     (Some (call_data (play_single_item (play_request ["tv"] "a,b") "tv" "a")))
                     (Some ["b"]) (Some STATE_PLAYING))
           (mkState STATE_IDLE ∅) (seconds 1050) _ (Float (seconds 50))).
  - vm_compute. reflexivity.
  - vm_compute. reflexivity.
  - reflexivity.
  - reflexivity.
  - reflexivity.
  - vm_compute. reflexivity.
  - vm_compute. reflexivity.
Defined.

(** ** Beyond the claims: the media ids of a request *)

Lemma join_split (sep : ascii) (s : string) : join sep (split sep s) = s.
Proof.
  induction s as [|c s IH]; [reflexivity|]. simpl.
  destruct (split_cons sep s) as (w & ws & Hs). rewrite Hs in *.
  destruct (Ascii.eqb_spec c sep) as [->|Hne].
  - change (join sep (EmptyString :: w :: ws)) with (String sep (join sep (w :: ws))).
    now rewrite IH.
  - destruct ws as [|w' ws].
    + change (String c w = String c s). change (w = s) in IH. now rewrite IH.
    + change (String c (w ++ String sep (join sep (w' :: ws))) = String c s).
      change (w ++ String sep (join sep (w' :: ws)) = s)%string in IH. now rewrite IH.
Qed.

(** X14.  [async_play] loses no media id and keeps their order: the id it
    plays first, followed by the ids it leaves pending, are the fields of
    the request's content id between the commas -- joined by commas again
    they give the content id back. *)
Theorem play_keeps_media_ids
    (ps : gmap string loc) (objs : list player) (calls : list service_call)
    (self : loc) (p : player) (cd : gmap string value) (s : string) :
  objs !! self = Some p ->
  cd !! ATTR_MEDIA_CONTENT_ID = Some (VStr s) ->
  exists m rest p',
    PlaylistPlayer.async_play self cd (mkHass ps objs calls)
    = (Ok tt,
       mkHass ps (<[self := p']> objs)
              (calls ++ [item_call (<[ATTR_ENTITY_ID := PlaylistPlayer.id_value (entity_id p)]> cd)
                                   m])) /\
    media_ids p' = Some rest /\
    join "," (m :: rest) = s.
Proof.
  intros Hself Hc. destruct (split_cons "," s) as (m & rest & Hs).
  exists m, rest. eexists. split; [|split].
  - rewrite (async_play_str ps objs calls self p cd s m rest Hself Hc Hs). reflexivity.
  - reflexivity.
  - rewrite <- Hs. apply join_split.
Qed.

Lemma play_keeps_media_ids_witness :
  exists m rest p',
    PlaylistPlayer.async_play 0 (play_request ["tv"] "a,,b") (mkHass ∅ [__init__ "tv"] [])
    = (Ok tt,
       mkHass ∅ (<[0 := p']> [__init__ "tv"])
              ([] ++ [item_call (<[ATTR_ENTITY_ID := VStr "tv"]> (play_request ["tv"] "a,,b"))
                                m])) /\
    media_ids p' = Some rest /\
    join "," (m :: rest) = "a,,b".
Proof.
  exact (play_keeps_media_ids ∅ [__init__ "tv"] [] 0 (__init__ "tv")
           (play_request ["tv"] "a,,b") "a,,b" eq_refl eq_refl).
Defined.

(** ** Beyond the claims: timing at the start of an item *)

(** X15.  What a reused instance kept of its timing is gone once the
    player reports playing: after a play request for a registered entity
    and a playing event with a duration and a position that can be
    subtracted, the instance holds the current time as [start_time], the
    difference [duration - position] as [time_left] and 0 as [time_past],
    whatever it held before the request. *)
Theorem play_then_playing_resets_timing
    (ps : gmap string loc) (objs : list player) (calls : list service_call)
    (e : string) (self : loc) (p : player) (cd : gmap string value) (s : string)
    (new_state : State) (now : float) (ntl : num) :
  ps !! e = Some self ->
  objs !! self = Some p ->
  entity_id p = Some e ->
  cd !! ATTR_ENTITY_ID = Some (VList [e]) ->
  cd !! ATTR_MEDIA_CONTENT_ID = Some (VStr s) ->
  st_state new_state = STATE_PLAYING ->
  reported_time_left new_state = Ok ntl ->
  let m := hd EmptyString (split "," s) in
  (async_play_media cd ;; async_state_changed (mkEvent (Some e) (Some new_state)) now)
    (mkHass ps objs calls)
  = (Ok tt,
     mkHass ps
       (<[self := mkPlayer (Some e) (Float now) ntl (Int 0)
                    (Some (call_data (play_single_item cd e m)))
                    (Some (tl (split "," s))) (Some STATE_PLAYING)]> objs)
       (calls ++ [play_single_item cd e m])).
Proof.
  intros He Hself Hid Hc Hs Hn Ht m. destruct (split_cons "," s) as (m' & rest & Hsplit).
  subst m. rewrite Hsplit. cbn [hd tl].
  pose proof (fun q => lookup_written objs self p Hself q) as Hw.
  assert (async_play_media cd (mkHass ps objs calls)
          = (Ok tt,
             mkHass ps
               (<[self := mkPlayer (Some e) (start_time p) (time_left p) (time_past p)
                            (Some (call_data (play_single_item cd e m')))
                            (Some rest) (Some STATE_IDLE)]> objs)
               (calls ++ [play_single_item cd e m']))) as E.
  { rewrite (async_play_media_registered ps objs calls e self cd Hc He).
    rewrite (async_play_str ps objs calls self p cd s m' rest Hself Hs Hsplit).
    rewrite Hid. reflexivity. }
  rewrite (bind_Ok _ _ _ _ _ E).
  rewrite (handle_event _ _ _ _ _ _ _ He).
  match goal with |- context [<[self := ?q]> objs] => set (p1 := q) end.
  rewrite (to_playing ps _ _ self p1 STATE_IDLE new_state now (Hw p1) eq_refl ntl Hn Ht).
  now rewrite list_insert_insert_eq.
Qed.

Lemma play_then_playing_resets_timing_witness :
  let cd := play_request ["tv"] "c,d" in
  let p := mkPlayer (Some "tv") (Float (seconds 1000)) (Int 100) (Float (seconds 30))
                    (Some ∅) (Some ["b"]) (Some STATE_PAUSED) in
  let new_state := mkState STATE_PLAYING {[ATTR_MEDIA_DURATION := VFloat (seconds 60)]} in
  (async_play_media cd ;;
   async_state_changed (mkEvent (Some "tv") (Some new_state)) (seconds 2000))
    (mkHass {["tv" := 0]} [p] [])
  = (Ok tt,
     mkHass {["tv" := 0]}
       (<[0 := mkPlayer (Some "tv") (Float (seconds 2000)) (Float (seconds 60)) (Int 0)
                 (Some (call_data (play_single_item cd "tv" "c")))
                 (Some ["d"]) (Some STATE_PLAYING)]> [p])
       ([] ++ [play_single_item cd "tv" "c"])).
Proof.
  intros cd p new_state.
  assert (Hx : ({["tv" := 0]} : gmap string loc) !! "tv" = Some 0) by reflexivity.
  assert (Ht : reported_time_left new_state = Ok (Float (seconds 60)))
    by (vm_compute; reflexivity).
  exact (play_then_playing_resets_timing {["tv" := 0]} [p] [] "tv" 0 p cd "c,d"
           new_state (seconds 2000) (Float (seconds 60))
           Hx eq_refl eq_refl eq_refl eq_refl eq_refl Ht).
Defined.

(** With nothing accumulated and no time left, a float difference that
    Python finds to be 2 or more is outside the tolerance. *)
Lemma two_seconds_late (t1 t2 : float) :
  num_leb (Int 2) (Float (fsub t2 t1)) = true ->
  exists t, elapsed_since (Int 0) t2 (Float t1) = Ok t /\
            within_tolerance t (Int 0) = Ok false.
Proof.
  intros H. rewrite elapsed_from_zero. eexists. split; [reflexivity|].
  unfold num_leb, num_compare in H.
  destruct (fsub t2 t1) as [s|s| |s m e]; simpl in H.
  - discriminate H.
  - destruct s; [discriminate H|]. reflexivity.
  - discriminate H.
  - destruct s.
    + exfalso. destruct (0 <=? e)%Z eqn:He.
      * assert ((Z.neg m * 2 ^ e ?= 2) = Lt)%Z as E.
        { apply Z.compare_lt_iff. apply Z.leb_le in He.
          pose proof (Z.pow_pos_nonneg 2 e ltac:(lia) He). nia. }
        rewrite E in H. discriminate H.
      * assert ((Z.neg m ?= 2 * 2 ^ (- e)) = Lt)%Z as E.
        { apply Z.compare_lt_iff. apply Z.leb_gt in He.
          pose proof (Z.pow_pos_nonneg 2 (- e) ltac:(lia) ltac:(lia)). nia. }
        rewrite E in H. discriminate H.
    + unfold within_tolerance, num_sub, to_float, float_of_int.
      change (f64 0 0) with (S754_zero false). cbn [and_then fadd fsub SFadd SFsub].
      unfold num_ltb, num_abs, num_compare. cbn [SFabs].
      unfold float_cmp_int in *.
      destruct (if (0 <=? e)%Z then (Z.pos m * 2 ^ e ?= 2)%Z
                else (Z.pos m ?= 2 * 2 ^ (- e))%Z); [reflexivity|discriminate H|reflexivity].
Qed.

(** X16.  A player that reports neither duration nor position: both
    default to 0, so the time left of the item is taken to be 0, and going
    idle 2 seconds or more after the playing report ([2 <= t2 - t1], as
    Python evaluates it on the floats) counts as a stop -- the entity
    leaves the registry and the pending ids are not played. *)
Theorem no_duration_reported
    (h : hass) (e : string) (self : loc) (p : player)
    (playing idle : State) (t1 t2 : float) :
  players h !! e = Some self ->
  objects h !! self = Some p ->
  entity_id p = Some e -> state p = Some STATE_IDLE ->
  st_state playing = STATE_PLAYING ->
  attributes playing !! ATTR_MEDIA_DURATION = None ->
  attributes playing !! ATTR_MEDIA_POSITION = None ->
  st_state idle = STATE_IDLE ->
  num_leb (Int 2) (Float (fsub t2 t1)) = true ->
  exists h',
    deliver e [(Some playing, t1); (Some idle, t2)] h = (Ok tt, h') /\
    players h' = delete e (players h) /\
    service_calls h' = service_calls h.
Proof.
  intros He Hself Hid Hst Hn1 Hdur Hpos Hn2 Hlate.
  destruct h as [ps objs calls]. simpl in *.
  pose proof (fun q => lookup_written objs self p Hself q) as Hw.
  destruct (two_seconds_late t1 t2 Hlate) as (t & Ht & Hout).
  set (p1 := set_state STATE_PLAYING (PlaylistPlayer.restart t1 (Int 0) p)).
  assert (async_state_changed (mkEvent (Some e) (Some playing)) t1 (mkHass ps objs calls)
          = (Ok tt, mkHass ps (<[self := p1]> objs) calls)) as E1.
  { rewrite (handle_event _ _ _ _ _ _ _ He).
    rewrite (to_playing ps objs calls self p STATE_IDLE playing t1 Hself Hst (Int 0) Hn1).
    - reflexivity.
    - unfold reported_time_left. rewrite Hdur, Hpos. reflexivity. }
  assert (async_state_changed (mkEvent (Some e) (Some idle)) t2
            (mkHass ps (<[self := p1]> objs) calls)
          = (Ok tt,
             mkHass (delete e ps)
               (<[self := set_state STATE_IDLE
                            (set_entity_id None (set_time_past t p1))]> objs)
               calls)) as E2.
  { rewrite (handle_event _ _ _ _ _ _ _ He).
    rewrite (playing_to_idle ps _ calls self p1 STATE_PLAYING idle t2 (Hw p1)
               eq_refl t false Hn2 eq_refl Ht Hout).
    rewrite list_insert_insert_eq.
    rewrite (stop_then_set_state ps _ calls self _ e STATE_IDLE self
               (Hw (set_time_past t p1)) Hid He).
    now rewrite list_insert_insert_eq. }
  eexists. split.
  { cbn [deliver for_each fst snd].
    rewrite (bind_Ok _ _ _ _ _ E1), (bind_Ok _ _ _ _ _ E2). reflexivity. }
  split; reflexivity.
Qed.

Lemma no_duration_reported_witness :
  exists h',
    deliver "tv" [(Some (mkState STATE_PLAYING ∅), seconds 10);
                  (Some (mkState STATE_IDLE ∅), seconds 70)]
            two_players = (Ok tt, h') /\
    players h' = delete "tv" (players two_players) /\
    service_calls h' = service_calls two_players.
Proof.
  apply (no_duration_reported two_players "tv" 0
           (mkPlayer (Some "tv") (Int 0) (Int 0) (Int 0)
                     (Some (call_data (play_single_item (play_request ["tv"; "radio"] "a,b")
                                                        "tv" "a")))
                     (Some ["b"]) (Some STATE_IDLE))
           (mkState STATE_PLAYING ∅) (mkState STATE_IDLE ∅) (seconds 10) (seconds 70)).
  - vm_compute. reflexivity.
  - vm_compute. reflexivity.
  - reflexivity.
  - reflexivity.
  - reflexivity.
  - reflexivity.
  - reflexivity.
  - reflexivity.
  - vm_compute. reflexivity.
Defined.

(** ** Beyond the claims: what an event can raise *)

Lemma live_supported (s : string) : live_state s = true -> supported s = true.
Proof.
  unfold live_state, supported.
  destruct (String.eqb s STATE_IDLE), (String.eqb s STATE_PLAYING),
    (String.eqb s STATE_PAUSED), (String.eqb s STATE_OFF); auto.
Qed.

Lemma clock_sub (a b : num) :
  clock_value a -> clock_value b -> exists c, num_sub a b = Ok c /\ clock_value c.
Proof.
  destruct a as [x|f], b as [y|g]; simpl; intros Ha Hb; subst;
    eexists; (split; [reflexivity|]); simpl; auto.
Qed.

Lemma clock_add (a b : num) :
  clock_value a -> clock_value b -> exists c, num_add a b = Ok c /\ clock_value c.
Proof.
  destruct a as [x|f], b as [y|g]; simpl; intros Ha Hb; subst;
    eexists; (split; [reflexivity|]); simpl; auto.
Qed.

Lemma clock_reported (s : State) :
  float_attribute s ATTR_MEDIA_DURATION -> float_attribute s ATTR_MEDIA_POSITION ->
  exists ntl, reported_time_left s = Ok ntl /\ clock_value ntl.
Proof.
  unfold float_attribute, reported_time_left, py_sub.
  destruct (attributes s !! ATTR_MEDIA_DURATION) as [[| | | f | |]|];
    destruct (attributes s !! ATTR_MEDIA_POSITION) as [[| | | g | |]|];
    simpl; intros H1 H2; try contradiction;
    eexists; (split; [reflexivity|]); simpl; auto.
Qed.

Lemma clock_elapsed (tp : num) (now : float) (st : num) :
  clock_value tp -> clock_value st ->
  exists t, elapsed_since tp now st = Ok t /\ clock_value t.
Proof.
  intros Htp Hst. unfold elapsed_since.
  destruct (clock_sub (Float now) st I Hst) as (c & -> & Hc). simpl.
  now apply clock_add.
Qed.

Lemma clock_tolerance (t tl : num) :
  clock_value t -> clock_value tl -> exists b, within_tolerance t tl = Ok b.
Proof.
  intros Ht Htl. unfold within_tolerance.
  destruct (clock_sub t tl Ht Htl) as (c & -> & _). simpl. eauto.
Qed.

(** A registered instance is replaced by one with such timing fields,
    whatever becomes of the registry entry. *)
Lemma timed_insert
    (ps ps' : gmap string loc) (objs : list player) (calls calls' : list service_call)
    (self : loc) (p' : player) :
  timed (mkHass ps objs calls) ->
  (forall e l, ps' !! e = Some l -> ps !! e = Some l) ->
  self < length objs ->
  clock_value (start_time p') -> clock_value (time_left p') -> clock_value (time_past p') ->
  timed (mkHass ps' (<[self := p']> objs) calls').
Proof.
  intros Ht Hsub Hlt H1 H2 H3 e l q He Hq. simpl in *.
  destruct (decide (self = l)) as [<-|Hne].
  - rewrite list_lookup_insert_eq in Hq by assumption. injection Hq as <-. auto.
  - rewrite list_lookup_insert_ne in Hq by assumption. eapply Ht; simpl; eauto.
Qed.

(** An event on a registered, ready instance, when the arithmetic of its
    row raises nothing: the handler returns, and the instances stay
    ready. *)
Lemma after_transition
    (ps : gmap string loc) (objs : list player) (calls : list service_call)
    (self : loc) (p : player) (new_state : State) (now : float)
    (old e : string) (ids : list string) (d : gmap string value) (ended : bool) :
  ready (mkHass ps objs calls) ->
  objs !! self = Some p ->
  state p = Some old -> live_state old = true ->
  media_ids p = Some ids -> data p = Some d ->
  entity_id p = Some e -> ps !! e = Some self ->
  (st_state new_state = STATE_PLAYING ->
   exists ntl, reported_time_left new_state = Ok ntl) ->
  (old = STATE_PLAYING -> st_state new_state = STATE_PAUSED ->
   exists t, elapsed_since (time_past p) now (start_time p) = Ok t) ->
  (old = STATE_PLAYING -> st_state new_state = STATE_IDLE ->
   exists t, elapsed_since (time_past p) now (start_time p) = Ok t /\
             within_tolerance t (time_left p) = Ok ended) ->
  exists h',
    PlaylistPlayer.async_state_changed self new_state now (mkHass ps objs calls) = (Ok tt, h') /\
    ready h' /\
    (timed (mkHass ps objs calls) ->
     (forall ntl, reported_time_left new_state = Ok ntl -> clock_value ntl) ->
     (forall t, elapsed_since (time_past p) now (start_time p) = Ok t -> clock_value t) ->
     timed h').
Proof.
  intros Hr Hself Hst Hlive Hids Hd Hid He A1 A2 A3.
  destruct (transition_effect ps objs calls self p new_state now old e self ids d ended
              Hself Hst Hids Hd Hid He A1 A2 A3)
    as (p' & E & Hid' & Hids' & Hd' & Hst' & Hlive' & Hs & Hl & Hp).
  rewrite E. eexists. split; [reflexivity|]. split.
  - destruct (classify old (st_state new_state) ended ids).
    + apply (ready_insert ps objs calls calls self p p' e Hr Hself Hid Hid' Hd'); [eauto|].
      specialize (Hlive' ltac:(discriminate)).
      rewrite (live_supported _ Hlive') in Hst'. eauto.
    + apply (ready_insert ps objs calls _ self p p' e Hr Hself Hid Hid' Hd'); [eauto|].
      specialize (Hlive' ltac:(discriminate)).
      rewrite (live_supported _ Hlive') in Hst'. eauto.
    + apply (ready_delete ps objs calls calls self p p' e Hr Hself Hid).
  - intros Ht Hntl Hel.
    destruct (Ht e self p He Hself) as (C1 & C2 & C3).
    apply timed_insert with (ps := ps) (calls := calls); try assumption.
    + intros e0 l0. destruct (classify old (st_state new_state) ended ids); auto.
      intros H0. apply lookup_delete_Some in H0. tauto.
    + eapply lookup_lt_Some, Hself.
    + destruct Hs as [-> | ->]; [assumption|exact I].
    + destruct Hl as [-> | Hl]; [assumption|now apply Hntl].
    + destruct Hp as [-> | [-> | Hp]]; [assumption|reflexivity|now apply Hel].
Qed.

(** X3.  On a state of [hass] where every registered instance is ready,
    a state-changed event that carries a new state either returns
    normally or raises [TypeError] or [OverflowError] -- what the
    subtractions and the sum of the handler raise on a duration or a
    position that is not a number, or on an [int] beyond the range of the
    floats -- and nothing else; when it raises, the registry and the
    service calls are as before; in every case the registered instances
    stay ready.  When moreover the timing fields of the registered
    instances are floats (or the 0 of [__init__]) and the duration and the
    position of the new state are floats or missing, the handler returns
    normally and the timing fields are such values again. *)
Theorem events_raise_only_arithmetic
    (h : hass) (ev : event) (new_state : State) (now : float) :
  ready h ->
  ev_new_state ev = Some new_state ->
  exists r h',
    async_state_changed ev now h = (r, h') /\
    ready h' /\
    (r = Ok tt \/
     (r = Raise TypeError \/ r = Raise OverflowError) /\
     players h' = players h /\ service_calls h' = service_calls h) /\
    (timed h ->
     float_attribute new_state ATTR_MEDIA_DURATION ->
     float_attribute new_state ATTR_MEDIA_POSITION ->
     r = Ok tt /\ timed h').
Proof.
  intros Hr Hn. destruct ev as [[e|] ns]; simpl in Hn; subst ns.
  2: { exists (Ok tt), h. split; [reflexivity|]. split; [assumption|].
       split; [now left|]. intros T _ _. now split. }
  destruct (players h !! e) as [self|] eqn:He.
  2: { exists (Ok tt), h. split.
       { unfold async_state_changed. simpl. rewrite bind_registry_get, He. reflexivity. }
       split; [assumption|]. split; [now left|]. intros T _ _. now split. }
  destruct (Hr e self He) as (p & Hself & Hid & [d Hd] & [ids Hids] & old & Hst & Hlive).
  destruct h as [ps objs calls]. simpl in *.
  rewrite (handle_event _ _ _ _ _ _ _ He).
  assert (Hclock :
            timed (mkHass ps objs calls) ->
            float_attribute new_state ATTR_MEDIA_DURATION ->
            float_attribute new_state ATTR_MEDIA_POSITION ->
            (exists ntl, reported_time_left new_state = Ok ntl /\ clock_value ntl) /\
            (exists t, elapsed_since (time_past p) now (start_time p) = Ok t /\
                       clock_value t /\
                       exists b, within_tolerance t (time_left p) = Ok b)).
  { intros T D P. destruct (T e self p He Hself) as (C1 & C2 & C3).
    split; [now apply clock_reported|].
    destruct (clock_elapsed (time_past p) now (start_time p) C3 C1) as (t & Et & Ct).
    exists t. split; [assumption|]. split; [assumption|]. now apply clock_tolerance. }
  assert (Hok : forall ended,
            (st_state new_state = STATE_PLAYING ->
             exists ntl, reported_time_left new_state = Ok ntl) ->
            (old = STATE_PLAYING -> st_state new_state = STATE_PAUSED ->
             exists t, elapsed_since (time_past p) now (start_time p) = Ok t) ->
            (old = STATE_PLAYING -> st_state new_state = STATE_IDLE ->
             exists t, elapsed_since (time_past p) now (start_time p) = Ok t /\
                       within_tolerance t (time_left p) = Ok ended) ->
            exists r h',
              PlaylistPlayer.async_state_changed self new_state now (mkHass ps objs calls)
              = (r, h') /\
              ready h' /\
              (r = Ok tt \/
               (r = Raise TypeError \/ r = Raise OverflowError) /\
               players h' = ps /\ service_calls h' = calls) /\
              (timed (mkHass ps objs calls) ->
               float_attribute new_state ATTR_MEDIA_DURATION ->
               float_attribute new_state ATTR_MEDIA_POSITION ->
               r = Ok tt /\ timed h')).
  { intros ended A1 A2 A3.
    destruct (after_transition ps objs calls self p new_state now old e ids d ended
                Hr Hself Hst Hlive Hids Hd Hid He A1 A2 A3) as (h' & E & Hr' & Ht').
    exists (Ok tt), h'. split; [exact E|]. split; [exact Hr'|]. split; [now left|].
    intros T D P. split; [reflexivity|].
    destruct (Hclock T D P) as ((n & En & Cn) & (t & Et & Ct & _)).
    apply Ht'; [exact T| |].
    - intros ntl H. rewrite En in H. now injection H as <-.
    - intros t' H. rewrite Et in H. now injection H as <-. }
  assert (Hraise : forall ex h',
            PlaylistPlayer.async_state_changed self new_state now (mkHass ps objs calls)
            = (Raise ex, h') ->
            ready h' -> players h' = ps -> service_calls h' = calls ->
            ex = TypeError \/ ex = OverflowError ->
            (timed (mkHass ps objs calls) ->
             float_attribute new_state ATTR_MEDIA_DURATION ->
             float_attribute new_state ATTR_MEDIA_POSITION -> False) ->
            exists r h',
              PlaylistPlayer.async_state_changed self new_state now (mkHass ps objs calls)
              = (r, h') /\
              ready h' /\
              (r = Ok tt \/
               (r = Raise TypeError \/ r = Raise OverflowError) /\
               players h' = ps /\ service_calls h' = calls) /\
              (timed (mkHass ps objs calls) ->
               float_attribute new_state ATTR_MEDIA_DURATION ->
               float_attribute new_state ATTR_MEDIA_POSITION ->
               r = Ok tt /\ timed h')).
  { intros ex h' E Hr' Hp Hc Hex Hno.
    exists (Raise ex), h'. split; [exact E|]. split; [exact Hr'|]. split.
    - right. split; [|now split]. destruct Hex as [-> | ->]; auto.
    - intros T D P. destruct (Hno T D P). }
  destruct (String.eqb_spec (st_state new_state) STATE_PLAYING) as [N1|N1].
  { destruct (reported_time_left new_state) as [ntl|ex] eqn:R.
    - apply (Hok false); [eauto| |].
      + intros _ H. rewrite N1 in H. cbv in H. discriminate H.
      + intros _ H. rewrite N1 in H. cbv in H. discriminate H.
    - apply (Hraise ex (mkHass ps objs calls)); try reflexivity; try assumption.
      + exact (to_playing_raises ps objs calls self p old new_state now Hself Hst ex N1 R).
      + exact (arithmetic_reported_time_left new_state ex R).
      + intros T D P. destruct (Hclock T D P) as ((n & En & _) & _).
        congruence. }
  destruct (String.eqb_spec old STATE_PLAYING) as [O1|O1].
  2: { apply (Hok false); [intros H; contradiction|intros H; contradiction..]. }
  destruct (String.eqb_spec (st_state new_state) STATE_PAUSED) as [N2|N2].
  { destruct (elapsed_since (time_past p) now (start_time p)) as [t|ex] eqn:El.
    - apply (Hok false); [intros H; contradiction|eauto|].
      intros _ H. rewrite N2 in H. cbv in H. discriminate H.
    - apply (Hraise ex (mkHass ps objs calls)); try reflexivity; try assumption.
      + exact (playing_to_paused_raises ps objs calls self p old new_state now Hself Hst ex
                 N2 O1 El).
      + exact (arithmetic_elapsed_since _ _ _ ex El).
      + intros T D P. destruct (Hclock T D P) as (_ & (t & Et & _)).
        congruence. }
  destruct (String.eqb_spec (st_state new_state) STATE_IDLE) as [N3|N3].
  { destruct (elapsed_since (time_past p) now (start_time p)) as [t|ex] eqn:El.
    - destruct (within_tolerance t (time_left p)) as [b|ex] eqn:W.
      + apply (Hok b); [intros H; contradiction|intros _ H; contradiction|eauto].
      + apply (Hraise ex (mkHass ps (<[self := set_time_past t p]> objs) calls));
          try reflexivity.
        * exact (playing_to_idle_test_raises ps objs calls self p old new_state now Hself Hst
                   t ex N3 O1 El W).
        * apply (ready_insert ps objs calls calls self p _ e Hr Hself Hid); simpl; eauto.
        * exact (arithmetic_within_tolerance _ _ ex W).
        * intros T D P. destruct (Hclock T D P) as (_ & (t' & Et & _ & (b & Eb))).
          congruence.
    - apply (Hraise ex (mkHass ps objs calls)); try reflexivity; try assumption.
      + exact (playing_to_idle_raises ps objs calls self p old new_state now Hself Hst ex
                 N3 O1 El).
      + exact (arithmetic_elapsed_since _ _ _ ex El).
      + intros T D P. destruct (Hclock T D P) as (_ & (t & Et & _)).
        congruence. }
  apply (Hok false); [intros H; contradiction|intros _ H; contradiction..].
Qed.

Lemma events_raise_only_arithmetic_witness :
  let new_state :=
    mkState STATE_PAUSED
      (<[ATTR_MEDIA_DURATION := VFloat (seconds 100)]>
         (<[ATTR_MEDIA_POSITION := VFloat (seconds 30)]> ∅)) in
  exists r h',
    async_state_changed
      (state_event "tv" STATE_PAUSED (VFloat (seconds 100)) (VFloat (seconds 30)))
      (seconds 1030) two_players = (r, h') /\
    ready h' /\
    (r = Ok tt \/
     (r = Raise TypeError \/ r = Raise OverflowError) /\
     players h' = players two_players /\ service_calls h' = service_calls two_players) /\
    (timed two_players ->
     float_attribute new_state ATTR_MEDIA_DURATION ->
     float_attribute new_state ATTR_MEDIA_POSITION ->
     r = Ok tt /\ timed h').
Proof.
  intros new_state.
  apply (events_raise_only_arithmetic two_players _ new_state).
  - apply ready_two_players.
  - reflexivity.
Defined.

(** The two errors, on the playing instance of "tv": a duration that is
    a string, and one that is an [int] too large for a float while the
    position is a float.  Nothing is changed. *)
Example bad_duration_raises :
  async_state_changed (state_event "tv" STATE_PLAYING (VStr "1:40") (VInt 0))
    (seconds 1001) playing_tv
  = (Raise TypeError, playing_tv) /\
  async_state_changed
    (state_event "tv" STATE_PLAYING (VInt (10 ^ 400)) (VFloat (seconds_and_half 2)))
    (seconds 1001) playing_tv
  = (Raise OverflowError, playing_tv).
Proof. split; vm_compute; reflexivity. Qed.

(** An [int] time left too large for a float: going idle stores the time
    played, then the tolerance test raises; the entity stays registered
    and still counts as playing. *)
Example huge_time_left_raises :
  let h := run (async_state_changed
                  (state_event "tv" STATE_PLAYING (VInt (10 ^ 400)) (VInt 0))
                  (seconds 1001)) playing_tv in
  let h' := run (async_state_changed (state_event "tv" STATE_IDLE (VInt 0) (VInt 0))
                   (seconds 1002)) h in
  outcome (async_state_changed (state_event "tv" STATE_IDLE (VInt 0) (VInt 0))
             (seconds 1002)) h
  = Raise OverflowError /\
  players h' !! "tv" = Some 0 /\
  (state <$> objects h' !! 0) = Some (Some STATE_PLAYING) /\
  (time_past <$> objects h' !! 0) = Some (Float (seconds 1)).
Proof. vm_compute. repeat split. Qed.
